(** * Chromatin-CLI: the Python IPC bridge ([source/lib/python-bridge.ts])

    A shallow embedding of the one-shot invoker [pythonCall] and of the
    persistent [PythonBridge], with the properties of the line framing,
    of the FIFO correlation of responses and of the failure paths.

    Conventions of the embedding:
    - a JavaScript string is the list of its UTF-16 code units ([jsstring]);
    - a [Buffer] is the list of its bytes;
    - the event handlers registered on the child process are functions
      from a state and an event to the next state and the list of effects
      the handler performs (settling a promise, writing to the worker...);
    - [JSON.parse] and [Buffer.prototype.toString] belong to the platform;
      the development is parametric in them ([Runtime]) and a concrete
      instance ([Node]) is given to evaluate the code on concrete inputs. *)

From Stdlib Require Import List NArith ZArith QArith Bool Ascii String Lia.
Import ListNotations.
Close Scope Q_scope.

#[local] Set Warnings "-register-all".

(** ** JavaScript strings *)

Module JSString.

Definition char16 := N.
Definition jsstring := list char16.

(** A string literal of the source, as code units. *)
Definition js (s : string) : jsstring :=
  map N_of_ascii (list_ascii_of_string s).

Definition NL : char16 := 10%N.

(** WhiteSpace and LineTerminator code units of ECMA-262, the ones
    [String.prototype.trim] strips. *)
Definition is_ws (c : char16) : bool :=
  ((9 <=? c) && (c <=? 13) || (c =? 32) || (c =? 160) || (c =? 5760)
   || (8192 <=? c) && (c <=? 8202) || (c =? 8232) || (c =? 8233)
   || (c =? 8239) || (c =? 8287) || (c =? 12288) || (c =? 65279))%N.

Fixpoint trimStart (s : jsstring) : jsstring :=
  match s with
  | [] => []
  | c :: r => if is_ws c then trimStart r else s
  end.

Definition trimEnd (s : jsstring) : jsstring := rev (trimStart (rev s)).

(** [s.trim()] *)
Definition trim (s : jsstring) : jsstring := trimEnd (trimStart s).

(** Truthiness of a string: the empty string is the only falsy one. *)
Definition truthy (s : jsstring) : bool :=
  match s with [] => false | _ => true end.

(** [s.split('\n')]: never empty, [''.split('\n')] is [['']]. *)
Fixpoint split_nl (s : jsstring) : list jsstring :=
  match s with
  | [] => [[]]
  | c :: r =>
      if (c =? NL)%N then [] :: split_nl r
      else match split_nl r with
           | h :: t => (c :: h) :: t
           | [] => [[c]]
           end
  end.

(** [s.slice(-n)]: the last [n] code units, the whole string when it is
    shorter. *)
Definition slice_last (n : nat) (s : jsstring) : jsstring :=
  skipn (List.length s - n) s.

(** [arr[arr.length - 1]], [None] standing for [undefined]. *)
Definition last_elem {A} (l : list A) : option A :=
  match rev l with [] => None | x :: _ => Some x end.

(** Decimal digits of a natural number, most significant first. *)
Fixpoint digits_fuel (fuel : nat) (n : N) (acc : jsstring) : jsstring :=
  match fuel with
  | O => acc
  | S f =>
      let acc' := (48 + n mod 10)%N :: acc in
      if (n <? 10)%N then acc' else digits_fuel f (n / 10)%N acc'
  end.

Definition N_to_js (n : N) : jsstring :=
  digits_fuel (S (N.to_nat (N.log2 n))) n [].

(** [String(z)] for an integer [z]. *)
Definition Z_to_js (z : Z) : jsstring :=
  match z with
  | Z0 => js "0"
  | Zpos p => N_to_js (Npos p)
  | Zneg p => js "-" ++ N_to_js (Npos p)
  end.

(** [s.startsWith(t)] *)
Fixpoint starts_with (t s : jsstring) : bool :=
  match t, s with
  | [], _ => true
  | a :: t', b :: s' => (a =? b)%N && starts_with t' s'
  | _ :: _, [] => false
  end.

(** [s.includes(t)] *)
Fixpoint includes (t s : jsstring) : bool :=
  starts_with t s ||
  match s with
  | [] => false
  | _ :: s' => includes t s'
  end.

End JSString.
Import JSString.

(** ** JSON values and the platform functions *)

(** What [JSON.parse] returns.  A number is kept as the rational its
    decimal text denotes (the rounding to a double is not modelled, no
    property below depends on it); an object is the list of its own
    properties. *)
Inductive JSON : Type :=
| JNull
| JBool (b : bool)
| JNumber (q : Q)
| JString (s : jsstring)
| JArray (l : list JSON)
| JObject (m : list (jsstring * JSON)).

(** [o[k]] on a parsed value, [None] standing for [undefined]. *)
Fixpoint assoc (k : jsstring) (m : list (jsstring * JSON)) : option JSON :=
  match m with
  | [] => None
  | (k', v) :: r => if starts_with k k' && starts_with k' k then Some v else assoc k r
  end.

Definition get_prop (k : string) (v : JSON) : option JSON :=
  match v with
  | JObject m => assoc (js k) m
  | _ => None
  end.

(** [result.ok] taken as a condition, as the callers do ([if (result.ok)]),
    for a result that has properties. *)
Definition response_ok (v : JSON) : bool :=
  match get_prop "ok" v with
  | Some (JBool b) => b
  | Some JNull | None => false
  | Some (JNumber q) => negb (Qeq_bool q 0%Q)
  | Some (JString s) => truthy s
  | Some (JArray _) | Some (JObject _) => true
  end.

(** [result.error] when it is a string. *)
Definition response_error (v : JSON) : option jsstring :=
  match get_prop "error" v with
  | Some (JString s) => Some s
  | _ => None
  end.

(** The platform: [JSON.parse] ([None] when it throws) and the UTF-8
    decoding of a [Buffer] by [toString()]. *)
Class Runtime : Type := {
  JSON_parse : jsstring -> option JSON;
  Buffer_toString : list Byte.byte -> jsstring
}.

(** ** A concrete runtime *)

Module NodeRuntime.

Local Open Scope N_scope.

Definition is_json_ws (c : char16) : bool :=
  (c =? 32) || (c =? 9) || (c =? 10) || (c =? 13).

Fixpoint skip_ws (s : jsstring) : jsstring :=
  match s with
  | [] => []
  | c :: r => if is_json_ws c then skip_ws r else s
  end.

Definition is_digit (c : char16) : bool := (48 <=? c) && (c <=? 57).

Definition hex_val (c : char16) : option N :=
  if is_digit c then Some (c - 48)
  else if (97 <=? c) && (c <=? 102) then Some (c - 87)
  else if (65 <=? c) && (c <=? 70) then Some (c - 55)
  else None.

Definition hex4 (a b c d : char16) : option N :=
  match hex_val a, hex_val b, hex_val c, hex_val d with
  | Some x, Some y, Some z, Some w => Some (((x * 16 + y) * 16 + z) * 16 + w)
  | _, _, _, _ => None
  end.

Definition unescape (e : char16) : option char16 :=
  if e =? 34 then Some 34 else if e =? 92 then Some 92
  else if e =? 47 then Some 47 else if e =? 98 then Some 8
  else if e =? 102 then Some 12 else if e =? 110 then Some 10
  else if e =? 114 then Some 13 else if e =? 116 then Some 9
  else None.

(** The characters of a string literal after its opening quote, and what
    follows the closing quote. *)
Fixpoint parse_string_body (s acc : jsstring) : option (jsstring * jsstring) :=
  match s with
  | [] => None
  | c :: r =>
      if c =? 34 then Some (rev acc, r)
      else if c =? 92 then
        match r with
        | [] => None
        | e :: r1 =>
            if e =? 117 then
              match r1 with
              | a :: b :: c' :: d :: r2 =>
                  match hex4 a b c' d with
                  | Some u => parse_string_body r2 (u :: acc)
                  | None => None
                  end
              | _ => None
              end
            else
              match unescape e with
              | Some u => parse_string_body r1 (u :: acc)
              | None => None
              end
        end
      else if c <? 32 then None
      else parse_string_body r (c :: acc)
  end.

Fixpoint take_digits (s : jsstring) : jsstring * jsstring :=
  match s with
  | [] => ([], [])
  | c :: r =>
      if is_digit c then let (ds, r') := take_digits r in (c :: ds, r')
      else ([], s)
  end.

Definition digits_val (ds : jsstring) : N :=
  fold_left (fun acc d => acc * 10 + (d - 48)) ds 0.

Definition parse_frac (s : jsstring) : option (jsstring * jsstring) :=
  match s with
  | c :: r =>
      if c =? 46 then
        match take_digits r with
        | ([], _) => None
        | (ds, r') => Some (ds, r')
        end
      else Some ([], s)
  | [] => Some ([], s)
  end.

Definition parse_exp (s : jsstring) : option (Z * jsstring) :=
  match s with
  | c :: r =>
      if (c =? 101) || (c =? 69) then
        let '(neg, r1) :=
          match r with
          | sg :: r0 =>
              if sg =? 45 then (true, r0)
              else if sg =? 43 then (false, r0) else (false, r)
          | [] => (false, r)
          end in
        match take_digits r1 with
        | ([], _) => None
        | (ds, r') =>
            let e := Z.of_N (digits_val ds) in
            Some (if neg then Z.opp e else e, r')
        end
      else Some (0%Z, s)
  | [] => Some (0%Z, s)
  end.

Definition parse_number (s : jsstring) : option (Q * jsstring) :=
  let '(neg, s1) :=
    match s with
    | c :: r => if c =? 45 then (true, r) else (false, s)
    | [] => (false, s)
    end in
  match take_digits s1 with
  | ([], _) => None
  | (d :: more, s2) =>
      if (d =? 48) && truthy more then None
      else
        match parse_frac s2 with
        | None => None
        | Some (fs, s3) =>
            match parse_exp s3 with
            | None => None
            | Some (e, s4) =>
                let m := Z.of_N (digits_val ((d :: more) ++ fs)) in
                let q := Qmult (inject_Z m)
                           (Qpower (10 # 1)%Q (e - Z.of_nat (List.length fs))%Z) in
                Some (Qred (if neg then Qopp q else q), s4)
            end
        end
  end.

(** Definition of an own property: a repeated key keeps its place and
    takes the later value. *)
Fixpoint obj_set (k : jsstring) (v : JSON) (m : list (jsstring * JSON))
  : list (jsstring * JSON) :=
  match m with
  | [] => [(k, v)]
  | (k', v') :: r =>
      if starts_with k k' && starts_with k' k then (k', v) :: r
      else (k', v') :: obj_set k v r
  end.

Fixpoint parse_value (fuel : nat) (s : jsstring) : option (JSON * jsstring) :=
  match fuel with
  | O => None
  | S f =>
      match skip_ws s with
      | [] => None
      | c :: r =>
          if c =? 123 then
            match skip_ws r with
            | c' :: r' =>
                if c' =? 125 then Some (JObject [], r')
                else parse_members f (c' :: r') []
            | [] => None
            end
          else if c =? 91 then
            match skip_ws r with
            | c' :: r' =>
                if c' =? 93 then Some (JArray [], r')
                else parse_elements f (c' :: r') []
            | [] => None
            end
          else if c =? 34 then
            match parse_string_body r [] with
            | Some (str, r') => Some (JString str, r')
            | None => None
            end
          else if starts_with (js "true") (c :: r) then
            Some (JBool true, skipn 4 (c :: r))
          else if starts_with (js "false") (c :: r) then
            Some (JBool false, skipn 5 (c :: r))
          else if starts_with (js "null") (c :: r) then
            Some (JNull, skipn 4 (c :: r))
          else
            match parse_number (c :: r) with
            | Some (q, r') => Some (JNumber q, r')
            | None => None
            end
      end
  end
with parse_elements (fuel : nat) (s : jsstring) (acc : list JSON)
  : option (JSON * jsstring) :=
  match fuel with
  | O => None
  | S f =>
      match parse_value f s with
      | None => None
      | Some (v, r) =>
          match skip_ws r with
          | c :: r' =>
              if c =? 44 then parse_elements f r' (acc ++ [v])
              else if c =? 93 then Some (JArray (acc ++ [v]), r')
              else None
          | [] => None
          end
      end
  end
with parse_members (fuel : nat) (s : jsstring) (acc : list (jsstring * JSON))
  : option (JSON * jsstring) :=
  match fuel with
  | O => None
  | S f =>
      match skip_ws s with
      | c :: r =>
          if c =? 34 then
            match parse_string_body r [] with
            | None => None
            | Some (k, r1) =>
                match skip_ws r1 with
                | c1 :: r2 =>
                    if c1 =? 58 then
                      match parse_value f r2 with
                      | None => None
                      | Some (v, r3) =>
                          match skip_ws r3 with
                          | c3 :: r4 =>
                              if c3 =? 44 then
                                parse_members f r4 (obj_set k v acc)
                              else if c3 =? 125 then
                                Some (JObject (obj_set k v acc), r4)
                              else None
                          | [] => None
                          end
                      end
                    else None
                | [] => None
                end
            end
          else None
      | [] => None
      end
  end.

(** [JSON.parse(text)]: one value, white space around it, nothing else. *)
Definition parse (s : jsstring) : option JSON :=
  match parse_value (2 * List.length s + 2) s with
  | Some (v, r) => match skip_ws r with [] => Some v | _ :: _ => None end
  | None => None
  end.

(** UTF-8 decoding with U+FFFD for every ill-formed maximal subpart. *)
Record utf8_state : Type := {
  cp : N; seen : N; needed : N; lower : N; upper : N
}.

Definition utf8_init : utf8_state :=
  {| cp := 0; seen := 0; needed := 0; lower := 128; upper := 191 |}.

Definition REPLACEMENT : char16 := 65533.

(** A code point as one code unit or a surrogate pair. *)
Definition emit (c : N) : jsstring :=
  if c <? 65536 then [c]
  else [55296 + (c - 65536) / 1024; 56320 + (c - 65536) mod 1024].

Definition utf8_lead (b : N) : utf8_state * jsstring :=
  if b <=? 127 then (utf8_init, [b])
  else if (194 <=? b) && (b <=? 223) then
    ({| cp := N.land b 31; seen := 0; needed := 1;
        lower := 128; upper := 191 |}, [])
  else if (224 <=? b) && (b <=? 239) then
    ({| cp := N.land b 15; seen := 0; needed := 2;
        lower := (if b =? 224 then 160 else 128);
        upper := (if b =? 237 then 159 else 191) |}, [])
  else if (240 <=? b) && (b <=? 244) then
    ({| cp := N.land b 7; seen := 0; needed := 3;
        lower := (if b =? 240 then 144 else 128);
        upper := (if b =? 244 then 143 else 191) |}, [])
  else (utf8_init, [REPLACEMENT]).

Definition utf8_step (st : utf8_state) (b : N) : utf8_state * jsstring :=
  if needed st =? 0 then utf8_lead b
  else if (lower st <=? b) && (b <=? upper st) then
    let c := N.lor (N.shiftl (cp st) 6) (N.land b 63) in
    if seen st + 1 =? needed st then (utf8_init, emit c)
    else ({| cp := c; seen := seen st + 1; needed := needed st;
             lower := 128; upper := 191 |}, [])
  else
    let (st', out) := utf8_lead b in (st', REPLACEMENT :: out).

Fixpoint utf8_decode_from (st : utf8_state) (bs : list Byte.byte) : jsstring :=
  match bs with
  | [] => if needed st =? 0 then [] else [REPLACEMENT]
  | b :: r =>
      let (st', out) := utf8_step st (Byte.to_N b) in
      out ++ utf8_decode_from st' r
  end.

Definition utf8_decode (bs : list Byte.byte) : jsstring :=
  utf8_decode_from utf8_init bs.

End NodeRuntime.

(** The runtime used for the concrete scenarios. *)
Definition Node : Runtime :=
  {| JSON_parse := NodeRuntime.parse;
     Buffer_toString := NodeRuntime.utf8_decode |}.

(** The bytes a worker writes for an ASCII text. *)
Definition bytes (s : string) : list Byte.byte := list_byte_of_string s.

(** JSON texts are written below with apostrophes for the double quotes:
    [quoted] puts the double quotes back. *)
Fixpoint quoted (s : string) : string :=
  match s with
  | EmptyString => EmptyString
  | String a r =>
      String (if Ascii.eqb a (ascii_of_nat 39) then ascii_of_nat 34 else a)
             (quoted r)
  end.

Definition jsq (s : string) : jsstring := js (quoted s).
Definition bytesq (s : string) : list Byte.byte := bytes (quoted s).

(** ** Promises *)

(** A promise is settled once: [resolve] and [reject] do nothing on a
    settled promise. *)
Inductive PromiseState : Type :=
| Pending
| Resolved (v : JSON)
| Rejected (message : jsstring).

Definition promise_resolve (p : PromiseState) (v : JSON) : PromiseState :=
  match p with Pending => Resolved v | _ => p end.

Definition promise_reject (p : PromiseState) (m : jsstring) : PromiseState :=
  match p with Pending => Rejected m | _ => p end.

(** The object literal [{ ok: false, error: message }]. *)
Definition failure (message : jsstring) : JSON :=
  JObject [(js "ok", JBool false); (js "error", JString message)].

(** The default value [params = {}] of both entry points. *)
Definition default_params (prm : option JSON) : JSON :=
  match prm with
  | Some v => v
  | None => JObject []
  end.

(** ** The one-shot invoker: [pythonCall] *)

Module OneShot.

(** What the event loop delivers to the listeners of one invocation.
    [Elapsed] is time passing with nothing to deliver: [pythonCall]
    registers no timer. *)
Inductive Event : Type :=
| StdoutData (data : list Byte.byte)
| StderrData (data : list Byte.byte)
| Close (code : option Z)
| Error (message : jsstring)
| Elapsed (ms : N).

(** The variables the listeners close over, the promise returned to the
    caller, and whether the invoker has called [child.kill()]. *)
Record State : Type := {
  action : jsstring;
  params : JSON;
  stdout : jsstring;
  stderr : jsstring;
  promise : PromiseState;
  killed : bool
}.

Definition set_stdout (st : State) (s : jsstring) : State :=
  {| action := action st; params := params st; stdout := s;
     stderr := stderr st; promise := promise st; killed := killed st |}.

Definition set_stderr (st : State) (s : jsstring) : State :=
  {| action := action st; params := params st; stdout := stdout st;
     stderr := s; promise := promise st; killed := killed st |}.

Definition set_promise (st : State) (p : PromiseState) : State :=
  {| action := action st; params := params st; stdout := stdout st;
     stderr := stderr st; promise := p; killed := killed st |}.

(** How the synchronous part of the executor ends: [spawn] has returned
    the child process, or [JSON.stringify] or [spawn] has thrown (an
    argument that holds U+0000, an argument list the system refuses, a
    value that cannot be serialised) an error with this message. *)
Inductive Executor : Type :=
| Spawned
| Threw (message : jsstring).

(** [`${code}`]: the exit code, [null] when a signal ended the worker. *)
Definition code_to_js (code : option Z) : jsstring :=
  match code with
  | Some z => Z_to_js z
  | None => js "null"
  end.

Section WithRuntime.
Context {rt : Runtime}.

(** The promise executor.  [JSON.stringify(params)] and [spawn(...)] run
    inside it, first: when they return ([Spawned]) the two accumulators
    start empty, the listeners are registered and the promise is
    pending; when one of them throws ([Threw]) the promise is rejected
    with what was thrown, and as no worker and no listener exist no
    event is delivered afterwards.  The function declares two
    parameters; arguments after them ([surplus]) are bound to nothing. *)
Definition pythonCall (act : jsstring) (prm : option JSON)
  (surplus : list JSON) (sync : Executor) : State :=
  {| action := act; params := default_params prm; stdout := []; stderr := [];
     promise := match sync with
                | Spawned => Pending
                | Threw message => Rejected message
                end;
     killed := false |}.

(** [stdout += data.toString()] *)
Definition on_stdout (st : State) (data : list Byte.byte) : State :=
  set_stdout st (stdout st ++ Buffer_toString data).

(** [stderr += data.toString()] *)
Definition on_stderr (st : State) (data : list Byte.byte) : State :=
  set_stderr st (stderr st ++ Buffer_toString data).

(** [stdout.trim().split('\n').filter(l => l.trim())] *)
Definition lines_of (out : jsstring) : list jsstring :=
  filter (fun l => truthy (trim l)) (split_nl (trim out)).

(** [lines[lines.length - 1] || '{}'] *)
Definition lastLine (out : jsstring) : jsstring :=
  match last_elem (lines_of out) with
  | Some l => if truthy l then l else js "{}"
  | None => js "{}"
  end.

(** The message built in the [catch] branch. *)
Definition exit_message (code : option Z) (err out : jsstring) : jsstring :=
  js "Python process exited with code " ++ code_to_js code
  ++ js ". stderr: " ++ slice_last 500 err
  ++ js ". stdout: " ++ slice_last 500 out.

(** The ['close'] listener. *)
Definition on_close (st : State) (code : option Z) : State :=
  match JSON_parse (lastLine (stdout st)) with
  | Some result => set_promise st (promise_resolve (promise st) result)
  | None =>
      set_promise st
        (promise_resolve (promise st)
           (failure (exit_message code (stderr st) (stdout st))))
  end.

(** The ['error'] listener. *)
Definition on_error (st : State) (message : jsstring) : State :=
  set_promise st
    (promise_resolve (promise st)
       (failure (js "Failed to spawn Python: " ++ message))).

Definition step (st : State) (ev : Event) : State :=
  match ev with
  | StdoutData d => on_stdout st d
  | StderrData d => on_stderr st d
  | Close code => on_close st code
  | Error m => on_error st m
  | Elapsed _ => st
  end.

Definition run (st : State) (evs : list Event) : State :=
  fold_left step evs st.

(** What the worker wrote on its stdout and on its stderr during a
    trace, chunk after chunk, as the listeners decode it. *)
Definition written_out (evs : list Event) : jsstring :=
  flat_map (fun ev => match ev with
                      | StdoutData d => Buffer_toString d
                      | _ => []
                      end) evs.

Definition written_err (evs : list Event) : jsstring :=
  flat_map (fun ev => match ev with
                      | StderrData d => Buffer_toString d
                      | _ => []
                      end) evs.

End WithRuntime.

(** The worker has ended (or could not start) somewhere in the trace. *)
Definition is_terminal (ev : Event) : bool :=
  match ev with
  | Close _ | Error _ => true
  | _ => false
  end.

Definition no_terminal (evs : list Event) : bool :=
  forallb (fun ev => negb (is_terminal ev)) evs.

(** [t] is the tail of [s] bounded by [n] code units. *)
Definition is_tail (n : nat) (t s : jsstring) : Prop :=
  (exists p, s = p ++ t) /\ List.length t = Nat.min n (List.length s).

(** The text the invoker hands to [JSON.parse] is the last line: [pre] is
    whatever complete lines came before, [line] has no white space around
    it, and only white space follows. *)
Definition ends_with_line (out pre line trailing : jsstring) : Prop :=
  out = pre ++ line ++ trailing
  /\ (pre = [] \/ exists y, pre = y ++ [NL])
  /\ ~ In NL line /\ trim line = line /\ line <> []
  /\ forallb is_ws trailing = true.

End OneShot.

(** ** The persistent bridge: [PythonBridge] *)

Module Bridge.

(** A spawned worker is named by its rank among the spawns of the bridge. *)
Definition ChildId := nat.

(** The pair [{ resolve, reject }] stored for a call: the two functions
    of the promise that the call returned. *)
Record Handler : Type := { promise_of : N }.

Inductive Event : Type :=
| Call (action : jsstring) (params : option JSON)
| Start
| Stop
| StdoutData (c : ChildId) (data : list Byte.byte)
| StderrData (c : ChildId) (data : list Byte.byte)
| Close (c : ChildId).

(** What a method or a listener does besides updating the fields. *)
Inductive Effect : Type :=
| Spawn (c : ChildId)
| StdinWrite (c : ChildId) (action : jsstring) (params : JSON)
| StdinEnd (c : ChildId)
| Kill (c : ChildId)
| StderrCallback (text : jsstring)
| Resolve (p : N) (v : JSON)
| Reject (p : N) (message : jsstring).

(** The fields of the class, then the processes of the environment:
    how many were spawned and which ones have emitted ['close'].
    [nextId] counts the calls; a JavaScript number is exact on the
    integers below 2^53, more calls than a bridge can make. *)
Record State : Type := {
  child : option ChildId;
  buffer : jsstring;
  pending : list (N * Handler);
  nextId : N;
  stderrCallback : bool;
  spawned : nat;
  closed : list ChildId
}.

Definition set_child (st : State) (c : option ChildId) : State :=
  {| child := c; buffer := buffer st; pending := pending st;
     nextId := nextId st; stderrCallback := stderrCallback st;
     spawned := spawned st; closed := closed st |}.

Definition set_buffer (st : State) (b : jsstring) : State :=
  {| child := child st; buffer := b; pending := pending st;
     nextId := nextId st; stderrCallback := stderrCallback st;
     spawned := spawned st; closed := closed st |}.

Definition set_pending (st : State) (p : list (N * Handler)) : State :=
  {| child := child st; buffer := buffer st; pending := p;
     nextId := nextId st; stderrCallback := stderrCallback st;
     spawned := spawned st; closed := closed st |}.

Definition set_nextId (st : State) (n : N) : State :=
  {| child := child st; buffer := buffer st; pending := pending st;
     nextId := n; stderrCallback := stderrCallback st;
     spawned := spawned st; closed := closed st |}.

Definition set_spawned (st : State) (n : nat) : State :=
  {| child := child st; buffer := buffer st; pending := pending st;
     nextId := nextId st; stderrCallback := stderrCallback st;
     spawned := n; closed := closed st |}.

Definition set_closed (st : State) (l : list ChildId) : State :=
  {| child := child st; buffer := buffer st; pending := pending st;
     nextId := nextId st; stderrCallback := stderrCallback st;
     spawned := spawned st; closed := l |}.

(** [new PythonBridge(onStderr)] *)
Definition new_bridge (onStderr : bool) : State :=
  {| child := None; buffer := []; pending := []; nextId := 1%N;
     stderrCallback := onStderr; spawned := 0; closed := [] |}.

(** *** The [Map] of pending requests, in insertion order *)

Fixpoint map_set (k : N) (h : Handler) (m : list (N * Handler))
  : list (N * Handler) :=
  match m with
  | [] => [(k, h)]
  | (k', h') :: r =>
      if (k =? k')%N then (k', h) :: r else (k', h') :: map_set k h r
  end.

Fixpoint map_get (k : N) (m : list (N * Handler)) : option Handler :=
  match m with
  | [] => None
  | (k', h) :: r => if (k =? k')%N then Some h else map_get k r
  end.

Fixpoint map_delete (k : N) (m : list (N * Handler)) : list (N * Handler) :=
  match m with
  | [] => []
  | (k', h) :: r => if (k =? k')%N then r else (k', h) :: map_delete k r
  end.

(** [m.keys().next().value] *)
Definition first_key (m : list (N * Handler)) : option N :=
  match m with
  | [] => None
  | (k, _) :: _ => Some k
  end.

Definition CLOSED_MESSAGE : jsstring := js "Python process closed".

Section WithRuntime.
Context {rt : Runtime}.

(** The body of the [for] loop of [_processBuffer]. *)
Definition process_line (st : State) (line : jsstring) : State * list Effect :=
  if negb (truthy (trim line)) then (st, [])
  else
    match JSON_parse line with
    | None => (st, [])
    | Some result =>
        match first_key (pending st) with
        | None => (st, [])
        | Some firstKey =>
            let handler := map_get firstKey (pending st) in
            (set_pending st (map_delete firstKey (pending st)),
             match handler with
             | Some h => [Resolve (promise_of h) result]
             | None => []
             end)
        end
    end.

Fixpoint process_lines (st : State) (lines : list jsstring)
  : State * list Effect :=
  match lines with
  | [] => (st, [])
  | l :: r =>
      let (st1, e1) := process_line st l in
      let (st2, e2) := process_lines st1 r in
      (st2, e1 ++ e2)
  end.

(** [lines.pop() || ''] *)
Definition popped (lines : list jsstring) : jsstring :=
  match last_elem lines with
  | Some l => if truthy l then l else []
  | None => []
  end.

(** [_processBuffer()] *)
Definition _processBuffer (st : State) : State * list Effect :=
  let lines := split_nl (buffer st) in
  process_lines (set_buffer st (popped lines)) (removelast lines).

(** The stdout listener after the decoding of the chunk:
    [this.buffer += text; this._processBuffer()]. *)
Definition feed_text (st : State) (text : jsstring) : State * list Effect :=
  _processBuffer (set_buffer st (buffer st ++ text)).

(** The ['data'] listener of the worker's stdout. *)
Definition on_stdout (st : State) (data : list Byte.byte)
  : State * list Effect :=
  feed_text st (Buffer_toString data).

(** The ['data'] listener of the worker's stderr. *)
Definition on_stderr (st : State) (data : list Byte.byte)
  : State * list Effect :=
  (st, if stderrCallback st then [StderrCallback (Buffer_toString data)]
       else []).

(** The ['close'] listener. *)
Definition on_close (st : State) : State * list Effect :=
  (set_pending st [],
   map (fun kh => Reject (promise_of (snd kh)) CLOSED_MESSAGE) (pending st)).

(** [start()] *)
Definition start (st : State) : State * list Effect :=
  (set_spawned (set_child st (Some (spawned st))) (S (spawned st)),
   [Spawn (spawned st)]).

(** [call(action, params)]; the promise it returns is named by the id
    it allocates.  [stdin.write] does not throw when the worker has
    exited: the stream is destroyed and the write is dropped. *)
Definition call (st : State) (act : jsstring) (prm : option JSON)
  : State * list Effect :=
  let (st1, e1) :=
    match child st with
    | None => start st
    | Some _ => (st, [])
    end in
  let id := nextId st1 in
  let st2 := set_nextId st1 (id + 1)%N in
  let st3 := set_pending st2 (map_set id {| promise_of := id |} (pending st2)) in
  (st3,
   e1 ++ match child st3 with
         | Some c => [StdinWrite c act (default_params prm)]
         | None => []
         end).

(** [stop()] *)
Definition stop (st : State) : State * list Effect :=
  match child st with
  | Some c => (set_child st None, [StdinEnd c; Kill c])
  | None => (st, [])
  end.

Definition step (st : State) (ev : Event) : State * list Effect :=
  match ev with
  | Call act prm => call st act prm
  | Start => start st
  | Stop => stop st
  | StdoutData _ d => on_stdout st d
  | StderrData _ d => on_stderr st d
  | Close c =>
      let (st', e) := on_close st in
      (set_closed st' (c :: closed st'), e)
  end.

Fixpoint run (st : State) (evs : list Event) : State * list Effect :=
  match evs with
  | [] => (st, [])
  | ev :: r =>
      let (st1, e1) := step st ev in
      let (st2, e2) := run st1 r in
      (st2, e1 ++ e2)
  end.

(** The value a line contributes: none when the line is blank or
    [JSON.parse] throws on it. *)
Definition parsed (line : jsstring) : option JSON :=
  if truthy (trim line) then JSON_parse line else None.

Definition parsed_values (lines : list jsstring) : list JSON :=
  flat_map (fun l => match parsed l with Some v => [v] | None => [] end) lines.

End WithRuntime.

(** The lines of a text that a line feed terminates, and what follows
    the last line feed. *)
Definition complete_lines (text : jsstring) : list jsstring :=
  removelast (split_nl text).

Definition fragment (text : jsstring) : jsstring :=
  last (split_nl text) [].

(** A text made of complete lines only. *)
Definition complete (text : jsstring) : Prop :=
  text = [] \/ exists y, text = y ++ [NL].

Definition mk_call (ap : jsstring * option JSON) : Event :=
  Call (fst ap) (snd ap).

(** [len] consecutive ids from [start]. *)
Definition N_seq (start : N) (len : nat) : list N :=
  map (fun i => (start + N.of_nat i)%N) (seq 0 len).

(** A worker emits events from its spawn to its ['close']: the event loop
    delivers [StdoutData c], [StderrData c] and [Close c] for a live [c]
    only. *)
Definition alive (st : State) (c : ChildId) : bool :=
  (c <? spawned st)%nat && negb (existsb (Nat.eqb c) (closed st)).

(** The state of promise [p] after the effects of [log]. *)
Fixpoint outcome (log : list Effect) (p : N) : PromiseState :=
  match log with
  | [] => Pending
  | Resolve q v :: r => if (q =? p)%N then Resolved v else outcome r p
  | Reject q m :: r => if (q =? p)%N then Rejected m else outcome r p
  | _ :: r => outcome r p
  end.

Definition handlers (m : list (N * Handler)) : list N :=
  map (fun kh => promise_of (snd kh)) m.

(** The promises a log settles, in order. *)
Definition settled (log : list Effect) : list N :=
  flat_map (fun e => match e with
                     | Resolve p _ | Reject p _ => [p]
                     | _ => []
                     end) log.

(** The promises issued so far: call number [i] returned promise [i]. *)
Definition issued (st : State) : list N :=
  N_seq 1 (N.to_nat (nextId st - 1)).

(** The invariant of a bridge and of the log of its effects: the promises
    are settled in the order of their calls, the ones still pending
    follow in that order, and each entry of the map holds the handler of
    the promise of its key. *)
Definition wf (st : State) (log : list Effect) : Prop :=
  settled log ++ map fst (pending st) = issued st
  /\ Forall (fun kh => promise_of (snd kh) = fst kh) (pending st)
  /\ (1 <= nextId st)%N.

Definition resolutions (ps : list N) (vs : list JSON) : list Effect :=
  map (fun pv => Resolve (fst pv) (snd pv)) (combine ps vs).

(** The current worker is one that was spawned. *)
Definition child_below_spawned (st : State) : Prop :=
  match child st with
  | Some k => (k < spawned st)%nat
  | None => True
  end.

End Bridge.

(** ** Feeding several chunks, and the events of stderr *)

Module BridgeTraces.
Import Bridge.

Section WithRuntime.
Context {rt : Runtime}.

(** The stdout listener run on the decoded chunks one after the other. *)
Fixpoint feed_chunks (st : State) (chunks : list jsstring)
  : State * list Effect :=
  match chunks with
  | [] => (st, [])
  | c :: r =>
      let (st1, e1) := feed_text st c in
      let (st2, e2) := feed_chunks st1 r in
      (st2, e1 ++ e2)
  end.

(** The text received from stdout during a trace: the decoded chunks,
    one after the other. *)
Definition received (evs : list Event) : jsstring :=
  flat_map (fun ev => match ev with
                      | StdoutData _ d => Buffer_toString d
                      | _ => []
                      end) evs.

End WithRuntime.

Definition is_stderr (ev : Event) : bool :=
  match ev with
  | StderrData _ _ => true
  | _ => false
  end.

Definition is_stderr_callback (e : Effect) : bool :=
  match e with
  | StderrCallback _ => true
  | _ => false
  end.

(** The write of [call(action, params)] on the stdin of worker [c]. *)
Definition write_of (c : ChildId) (ap : jsstring * option JSON) : Effect :=
  StdinWrite c (fst ap) (default_params (snd ap)).

End BridgeTraces.

(** ** The React hook [usePython] ([hooks/use-python.ts]) *)

Module Hook.

(** A JavaScript value the hook can hold: [None] is [undefined]. *)
Definition value := option JSON.

(** Truthiness of a value. *)
Definition truthy_value (v : value) : bool :=
  match v with
  | None | Some JNull => false
  | Some (JBool b) => b
  | Some (JNumber q) => negb (Qeq_bool q 0%Q)
  | Some (JString s) => truthy s
  | Some (JArray _) | Some (JObject _) => true
  end.

(** The three state variables of the hook. *)
Record State : Type := {
  data : value;
  loading : bool;
  error : value
}.

(** [useState(null)], [useState(false)], [useState(null)]; also what
    [reset()] sets. *)
Definition initial : State :=
  {| data := Some JNull; loading := false; error := Some JNull |}.

Definition reset (st : State) : State := initial.

(** [call] up to its [await]: [setLoading(true); setError(null)]. *)
Definition call_begin (st : State) : State :=
  {| data := data st; loading := true; error := Some JNull |}.

(** [e.message || 'Failed to call Python backend'] *)
Definition caught (message : jsstring) : value :=
  Some (JString (if truthy message then message
                 else js "Failed to call Python backend")).

(** [call] after its [await], given how the promise of [pythonCall] was
    settled: the new state and the value [call] returns.  Nothing
    happens while the promise is pending.  Reading [result.ok] on [null]
    throws a [TypeError], whose message ([null_message]) is the
    platform's. *)
Definition call_end (null_message : jsstring) (st : State) (o : PromiseState)
  : option (State * value) :=
  match o with
  | Pending => None
  | Rejected m =>
      Some ({| data := data st; loading := false; error := caught m |},
            Some JNull)
  | Resolved JNull =>
      Some ({| data := data st; loading := false;
               error := caught null_message |},
            Some JNull)
  | Resolved result =>
      if truthy_value (get_prop "ok" result) then
        Some ({| data := get_prop "data" result; loading := false;
                 error := error st |},
              get_prop "data" result)
      else
        Some ({| data := data st; loading := false;
                 error := (if truthy_value (get_prop "error" result)
                           then get_prop "error" result
                           else Some (JString (js "Unknown error"))) |},
              Some JNull)
  end.

Section WithRuntime.
Context {rt : Runtime}.

(** One use of the hook: [call(action, params)], how the executor of
    [pythonCall] ends and the events [evs] of the worker that are
    delivered. *)
Definition call (null_message : jsstring) (st : State)
  (act : jsstring) (prm : option JSON) (sync : OneShot.Executor)
  (evs : list OneShot.Event) : option (State * value) :=
  call_end null_message (call_begin st)
    (OneShot.promise
       (OneShot.run
          (OneShot.pythonCall act (Some (default_params prm)) [] sync)
          evs)).

End WithRuntime.

End Hook.

(** ** The command line ([app.tsx], non-interactive modes) *)

Module Cli.

Definition COMMA : char16 := 44%N.

(** [s.split(sep)] for a separator of one code unit. *)
Fixpoint split_on (sep : char16) (s : jsstring) : list jsstring :=
  match s with
  | [] => [[]]
  | c :: r =>
      if (c =? sep)%N then [] :: split_on sep r
      else match split_on sep r with
           | h :: t => (c :: h) :: t
           | [] => [[c]]
           end
  end.

(** [s.split(',')] *)
Definition split_comma (s : jsstring) : list jsstring := split_on COMMA s.

(** [tissuesList]: [None] is [undefined]. *)
Definition tissuesList (tissues : option jsstring) : option (list jsstring) :=
  match tissues with
  | Some t =>
      if truthy t then Some (filter truthy (map trim (split_comma t)))
      else None
  | None => None
  end.

(** [items.join(',')] *)
Fixpoint join_comma (items : list jsstring) : jsstring :=
  match items with
  | [] => []
  | [x] => x
  | x :: r => x ++ COMMA :: join_comma r
  end.

(** An item of the list of tissues as the parser leaves it: not empty,
    no white space around it, no comma in it. *)
Definition clean_item (x : jsstring) : Prop :=
  x <> [] /\ trim x = x /\ ~ In COMMA x.

(** The flags that choose the action. *)
Record Flags : Type := {
  list : bool;
  report : bool;
  test : bool;
  duplicates : bool;
  paired : bool;
  nonPaired : bool
}.

Definition isNonInteractive (f : Flags) : bool :=
  list f || report f || test f || duplicates f.

(** The action handed to [pythonCall], when one is. *)
Definition selected_action (f : Flags) : option jsstring :=
  if list f then
    Some (if paired f then js "find_paired"
          else if nonPaired f then js "find_non_paired"
          else js "fetch_mcool")
  else if report f then Some (js "generate_report")
  else if test f then Some (js "test_download")
  else if duplicates f then Some (js "check_duplicates")
  else None.

(** What the process does once the awaited promise is settled:
    [console.log] of the result and [process.exit(0)], or
    [console.error] and [process.exit(1)] when the [await] throws. *)
Inductive Output : Type :=
| Log (result : JSON)
| LogError (message : jsstring).

Definition finish (o : PromiseState) : option (Output * Z) :=
  match o with
  | Pending => None
  | Resolved result => Some (Log result, 0%Z)
  | Rejected m => Some (LogError m, 1%Z)
  end.

Section WithRuntime.
Context {rt : Runtime}.

(** The non-interactive run: nothing when no action flag is set (the
    interface is rendered instead). *)
Definition main (f : Flags) (prm : option JSON) (sync : OneShot.Executor)
  (evs : Datatypes.list OneShot.Event) : option (Output * Z) :=
  match selected_action f with
  | Some act =>
      finish (OneShot.promise
                (OneShot.run (OneShot.pythonCall act prm [] sync) evs))
  | None => None
  end.

End WithRuntime.

End Cli.

(** ** Formatting of table cells ([lib/format.ts]) *)

Module Format.

Definition SPACE : char16 := 32%N.
Definition ELLIPSIS : char16 := 8230%N.

(** [str.slice(0, e)] for an integer [e]: a negative [e] counts from the
    end. *)
Definition slice_to (s : jsstring) (e : Z) : jsstring :=
  if (e <? 0)%Z
  then firstn (Z.to_nat (Z.max 0 (Z.of_nat (List.length s) + e))) s
  else firstn (Z.to_nat e) s.

(** [' '.repeat(n)] for [n >= 0]. *)
Definition spaces (n : Z) : jsstring := repeat SPACE (Z.to_nat n).

Definition padRight (str : jsstring) (len : Z) : jsstring :=
  if (len <=? Z.of_nat (List.length str))%Z then slice_to str len
  else str ++ spaces (len - Z.of_nat (List.length str)).

Definition padLeft (str : jsstring) (len : Z) : jsstring :=
  if (len <=? Z.of_nat (List.length str))%Z then slice_to str len
  else spaces (len - Z.of_nat (List.length str)) ++ str.

Definition truncate (str : jsstring) (len : Z) : jsstring :=
  if (Z.of_nat (List.length str) <=? len)%Z then str
  else slice_to str (len - 1) ++ [ELLIPSIS].

End Format.

(** ** Inputs of the scenarios *)

(** A line of noise, then the answer [{ok: true, data: {x: 1}}]. *)
Definition noise_then_answer : list Byte.byte :=
  bytes "noise" ++ [Byte.x0a]
  ++ bytesq "{'ok':true,'data':{'x':1}}" ++ [Byte.x0a].

Definition answer_x1 : JSON :=
  JObject [(js "ok", JBool true);
           (js "data", JObject [(js "x", JNumber 1%Q)])].

(** Two calls and their answers. *)
Definition call_A : jsstring * option JSON := (js "list_cell_lines", None).
Definition call_B : jsstring * option JSON :=
  (js "get_stats", Some (JObject [])).

Definition resp_A : JSON :=
  JObject [(js "ok", JBool true); (js "data", JString (js "A"))].
Definition resp_B : JSON :=
  JObject [(js "ok", JBool true); (js "data", JString (js "B"))].

Definition two_answers : list Byte.byte :=
  bytesq "{'ok':true,'data':'A'}" ++ [Byte.x0a]
  ++ bytesq "{'ok':true,'data':'B'}" ++ [Byte.x0a].

(** What [spawn] throws for an action that holds U+0000. *)
Definition null_byte_message : jsstring :=
  js "The argument 'args[2]' must be a string without null bytes. Received 'a\x00b'".

(** Two tissue names. *)
Definition two_tissues : list jsstring := [js "Leukemia"; js "B-lymphocyte"].

(** * Properties *)

(** ** Strings *)

Section StringFacts.

Lemma split_nl_nonempty (s : jsstring) : split_nl s <> [].
Proof.
  destruct s as [|c r]; simpl; [discriminate|].
  destruct (c =? NL)%N; [discriminate|].
  destruct (split_nl r); discriminate.
Qed.

Lemma split_nl_no_nl (s : jsstring) : ~ In NL s -> split_nl s = [s].
Proof.
  induction s as [|c r IH]; simpl; intros H; [reflexivity|].
  destruct (N.eqb_spec c NL) as [->|_]; [exfalso; auto|].
  rewrite IH; auto.
Qed.

(** The segments on both sides of a line feed are independent. *)
Lemma split_nl_app_nl (a b : jsstring) :
  split_nl (a ++ NL :: b) = split_nl a ++ split_nl b.
Proof.
  induction a as [|c r IH]; simpl; [reflexivity|].
  destruct (c =? NL)%N; [now rewrite IH|].
  rewrite IH.
  pose proof (split_nl_nonempty r) as Hne.
  destruct (split_nl r); [contradiction|reflexivity].
Qed.

(** Appending text only extends the last segment. *)
Lemma split_nl_app (a b : jsstring) :
  split_nl (a ++ b)
  = removelast (split_nl a) ++ split_nl (last (split_nl a) [] ++ b).
Proof.
  induction a as [|c r IH]; [reflexivity|].
  pose proof (split_nl_nonempty r) as Hne.
  cbn [app split_nl].
  destruct (c =? NL)%N eqn:Ec.
  - rewrite IH. destruct (split_nl r) as [|h t]; [contradiction|reflexivity].
  - rewrite IH. destruct (split_nl r) as [|h t]; [contradiction|].
    destruct t as [|h' t'].
    + cbn [removelast last app split_nl]. rewrite Ec.
      pose proof (split_nl_nonempty (h ++ b)) as Hne'.
      destruct (split_nl (h ++ b)); [contradiction|reflexivity].
    + reflexivity.
Qed.

Lemma last_elem_app {A} (l : list A) (x : A) : last_elem (l ++ [x]) = Some x.
Proof. unfold last_elem. now rewrite rev_app_distr. Qed.

Lemma last_elem_last (l : list jsstring) :
  l <> [] -> last_elem l = Some (last l []).
Proof.
  intros H. destruct (exists_last H) as (l' & x & ->).
  now rewrite last_elem_app, last_last.
Qed.

Lemma trimStart_all_ws (s t : jsstring) :
  forallb is_ws s = true -> trimStart (s ++ t) = trimStart t.
Proof.
  induction s as [|c r IH]; simpl; [reflexivity|].
  intros H. apply andb_true_iff in H as [Hc Hr]. now rewrite Hc, IH.
Qed.

Lemma trimStart_some_char (s t : jsstring) :
  forallb is_ws s = false -> trimStart (s ++ t) = trimStart s ++ t.
Proof.
  induction s as [|c r IH]; simpl; [discriminate|].
  destruct (is_ws c); simpl; auto.
Qed.

Lemma trimStart_head (c : char16) (s : jsstring) :
  is_ws c = false -> trimStart (c :: s) = c :: s.
Proof. intros H. simpl. now rewrite H. Qed.

Lemma trimStart_length (s : jsstring) :
  (List.length (trimStart s) <= List.length s)%nat.
Proof.
  induction s as [|c r IH]; simpl; [lia|].
  destruct (is_ws c); simpl; lia.
Qed.

Lemma trimEnd_length (s : jsstring) :
  (List.length (trimEnd s) <= List.length s)%nat.
Proof.
  unfold trimEnd. rewrite length_rev.
  pose proof (trimStart_length (rev s)) as H. now rewrite length_rev in H.
Qed.

Lemma trimEnd_all_ws (s t : jsstring) :
  forallb is_ws t = true -> trimEnd (s ++ t) = trimEnd s.
Proof.
  intros H. unfold trimEnd. rewrite rev_app_distr.
  rewrite trimStart_all_ws; [reflexivity|].
  rewrite forallb_forall in *. intros x Hx. apply H. now apply in_rev.
Qed.

Lemma trimEnd_last (s : jsstring) (c : char16) :
  is_ws c = false -> trimEnd (s ++ [c]) = s ++ [c].
Proof.
  intros H. unfold trimEnd. rewrite rev_app_distr. simpl. rewrite H.
  simpl. now rewrite rev_involutive.
Qed.

(** A string that [trim] leaves alone and that is not empty starts and
    ends with a character that is not white space. *)
Lemma trimmed_head (s : jsstring) :
  trim s = s -> s <> [] -> exists c r, s = c :: r /\ is_ws c = false.
Proof.
  intros Ht Hne. destruct s as [|c r]; [contradiction|].
  exists c, r. split; [reflexivity|].
  destruct (is_ws c) eqn:E; [exfalso|reflexivity].
  assert (List.length (trim (c :: r)) <= List.length r)%nat as Hl.
  { unfold trim. etransitivity; [apply trimEnd_length|].
    simpl. rewrite E. apply trimStart_length. }
  rewrite Ht in Hl. simpl in Hl. lia.
Qed.

Lemma trimmed_last (s : jsstring) :
  trim s = s -> s <> [] -> exists r c, s = r ++ [c] /\ is_ws c = false.
Proof.
  intros Ht Hne.
  destruct (trimmed_head s Ht Hne) as (c0 & r0 & Hs & Hc0).
  destruct (exists_last Hne) as (r & c & Hr).
  exists r, c. split; [assumption|].
  destruct (is_ws c) eqn:E; [exfalso|reflexivity].
  assert (List.length (trim s) <= List.length r)%nat as Hl.
  { unfold trim. rewrite Hs, (trimStart_head c0 r0 Hc0), <- Hs, Hr.
    unfold trimEnd. rewrite rev_app_distr. simpl. rewrite E.
    rewrite length_rev.
    pose proof (trimStart_length (rev r)) as H. now rewrite length_rev in H. }
  rewrite Ht, Hr, length_app in Hl. simpl in Hl. lia.
Qed.

Lemma trim_all_ws (s : jsstring) : forallb is_ws s = true -> trim s = [].
Proof.
  intros H. unfold trim.
  rewrite <- (app_nil_r s), trimStart_all_ws by assumption. reflexivity.
Qed.

Lemma starts_with_app (t s : jsstring) : starts_with t (t ++ s) = true.
Proof.
  induction t as [|a t IH]; simpl; [reflexivity|].
  now rewrite N.eqb_refl, IH.
Qed.

Lemma includes_app (t a b : jsstring) : includes t (a ++ t ++ b) = true.
Proof.
  induction a as [|c a IH]; simpl.
  - destruct (t ++ b) eqn:E; simpl; rewrite <- E, starts_with_app; reflexivity.
  - rewrite IH. apply orb_true_r.
Qed.

Lemma slice_last_suffix (n : nat) (s : jsstring) :
  exists p, s = p ++ slice_last n s.
Proof.
  exists (firstn (List.length s - n) s). unfold slice_last.
  now rewrite firstn_skipn.
Qed.

Lemma slice_last_length (n : nat) (s : jsstring) :
  List.length (slice_last n s) = Nat.min n (List.length s).
Proof. unfold slice_last. rewrite length_skipn. lia. Qed.

End StringFacts.

(** ** The one-shot invoker *)

Section OneShotFacts.
Import OneShot.
Context {rt : Runtime}.

Lemma lastLine_blank (out : jsstring) :
  forallb is_ws out = true -> lastLine out = js "{}".
Proof.
  intros H. unfold lastLine, lines_of. now rewrite (trim_all_ws out H).
Qed.

Lemma trim_ends_with_line (out pre line trailing : jsstring) :
  ends_with_line out pre line trailing ->
  exists P, trim out = P ++ line /\ (P = [] \/ exists y, P = y ++ [NL]).
Proof.
  intros (-> & Hpre & _ & Ht & Hne & Htr).
  destruct (trimmed_head line Ht Hne) as (c0 & r0 & Hl0 & Hc0).
  destruct (trimmed_last line Ht Hne) as (r & c & Hl & Hc).
  assert (forallb is_ws (pre ++ line) = false) as Hsome.
  { rewrite forallb_app, Hl0. simpl. rewrite Hc0. apply andb_false_r. }
  assert (exists P, trimStart (pre ++ line) = P ++ line
                    /\ (P = [] \/ exists y, P = y ++ [NL])) as (P & HP & HPs).
  { destruct (forallb is_ws pre) eqn:Ews.
    - exists []. split; [|now left].
      rewrite trimStart_all_ws by assumption.
      rewrite Hl0. now apply trimStart_head.
    - exists (trimStart pre). split; [now apply trimStart_some_char|].
      destruct Hpre as [->|(y & ->)]; [discriminate|]. right.
      exists (trimStart y). apply trimStart_some_char.
      rewrite forallb_app in Ews. simpl in Ews.
      destruct (forallb is_ws y); [discriminate|reflexivity]. }
  exists P. split; [|assumption].
  unfold trim. rewrite app_assoc, trimStart_some_char by assumption.
  rewrite trimEnd_all_ws by assumption.
  rewrite HP, Hl, app_assoc. now apply trimEnd_last.
Qed.

(** What [lastLine] computes on an output that ends with a line. *)
Lemma lastLine_ends_with_line (out pre line trailing : jsstring) :
  ends_with_line out pre line trailing -> lastLine out = line.
Proof.
  intros H. destruct (trim_ends_with_line _ _ _ _ H) as (P & HP & HPs).
  destruct H as (_ & _ & Hnl & Ht & Hne & _).
  assert (truthy line = true) as Htl by (destruct line; [contradiction|reflexivity]).
  assert (exists A, lines_of out = A ++ [line]) as (A & HA).
  { unfold lines_of. rewrite HP.
    destruct HPs as [->|(y & ->)].
    - exists []. simpl. rewrite split_nl_no_nl by assumption.
      simpl. now rewrite Ht, Htl.
    - exists (filter (fun l => truthy (trim l)) (split_nl y)).
      rewrite <- app_assoc. simpl.
      rewrite split_nl_app_nl, (split_nl_no_nl line) by assumption.
      rewrite filter_app. simpl. now rewrite Ht, Htl. }
  unfold lastLine. now rewrite HA, last_elem_app, Htl.
Qed.

Lemma run_app (st : State) (a b : list Event) :
  run st (a ++ b) = run (run st a) b.
Proof. apply fold_left_app. Qed.

Lemma step_killed (st : State) (ev : Event) : killed (step st ev) = killed st.
Proof.
  destruct ev; simpl; try reflexivity.
  unfold on_close. destruct (JSON_parse _); reflexivity.
Qed.

Lemma run_killed (st : State) (evs : list Event) :
  killed (run st evs) = killed st.
Proof.
  unfold run. revert st.
  induction evs as [|ev r IH]; intros st; simpl; [reflexivity|].
  now rewrite IH, step_killed.
Qed.

Lemma run_no_terminal (st : State) (evs : list Event) :
  no_terminal evs = true -> promise (run st evs) = promise st.
Proof.
  unfold run. revert st.
  induction evs as [|ev r IH]; intros st H; simpl; [reflexivity|].
  apply andb_true_iff in H as [Hev Hr].
  rewrite IH by assumption.
  destruct ev; simpl in *; try reflexivity; discriminate.
Qed.

Lemma step_not_rejected (st : State) (ev : Event) :
  (forall m, promise st <> Rejected m) ->
  forall m, promise (step st ev) <> Rejected m.
Proof.
  intros H m. pose proof (H m) as Hm.
  destruct ev; simpl; auto;
    [unfold on_close; destruct (JSON_parse _)|]; simpl;
    destruct (promise st); simpl; try discriminate; exact Hm.
Qed.

Lemma run_not_rejected (st : State) (evs : list Event) :
  (forall m, promise st <> Rejected m) ->
  forall m, promise (run st evs) <> Rejected m.
Proof.
  unfold run. revert st.
  induction evs as [|ev r IH]; intros st H; simpl; [exact H|].
  apply IH. now apply step_not_rejected.
Qed.

Lemma step_keeps_resolved (st : State) (ev : Event) (v : JSON) :
  promise st = Resolved v -> promise (step st ev) = Resolved v.
Proof.
  intros H. destruct ev; simpl; auto.
  - unfold on_close. destruct (JSON_parse _); simpl; now rewrite H.
  - now rewrite H.
Qed.

Lemma run_keeps_resolved (st : State) (evs : list Event) (v : JSON) :
  promise st = Resolved v -> promise (run st evs) = Resolved v.
Proof.
  unfold run. revert st.
  induction evs as [|ev r IH]; intros st H; simpl; [exact H|].
  apply IH. now apply step_keeps_resolved.
Qed.

Lemma step_terminal_settles (st : State) (ev : Event) :
  is_terminal ev = true -> promise st = Pending ->
  exists v, promise (step st ev) = Resolved v.
Proof.
  intros Ht Hp. destruct ev; try discriminate; simpl.
  - unfold on_close. destruct (JSON_parse _); simpl; rewrite Hp; eauto.
  - rewrite Hp. eauto.
Qed.

Lemma run_terminal_settles (st : State) (evs : list Event) :
  existsb is_terminal evs = true -> promise st = Pending ->
  exists v, promise (run st evs) = Resolved v.
Proof.
  revert st. induction evs as [|ev r IH]; intros st H Hp; simpl in *;
    [discriminate|].
  change (run st (ev :: r)) with (run (step st ev) r).
  destruct (is_terminal ev) eqn:Et.
  - destruct (step_terminal_settles st ev Et Hp) as (v & Hv).
    exists v. now apply run_keeps_resolved.
  - apply IH; [assumption|].
    destruct ev; simpl in *; try assumption; discriminate.
Qed.

Lemma step_stdout (st : State) (ev : Event) :
  stdout (step st ev) = stdout st ++ written_out [ev]
  /\ stderr (step st ev) = stderr st ++ written_err [ev].
Proof.
  destruct ev; simpl; rewrite ?app_nil_r; auto.
  unfold on_close. destruct (JSON_parse _); auto.
Qed.

(** The two accumulators hold all that the worker wrote. *)
Lemma run_stdout (st : State) (evs : list Event) :
  stdout (run st evs) = stdout st ++ written_out evs
  /\ stderr (run st evs) = stderr st ++ written_err evs.
Proof.
  unfold run. revert st.
  induction evs as [|ev r IH]; intros st; simpl; [now rewrite !app_nil_r|].
  destruct (IH (step st ev)) as [-> ->].
  destruct (step_stdout st ev) as [-> ->]. simpl.
  rewrite !app_nil_r, <- !app_assoc. auto.
Qed.

Lemma pythonCall_accumulates (act : jsstring) (prm : option JSON)
      (surplus : list JSON) (evs : list Event) :
  stdout (run (pythonCall act prm surplus Spawned) evs) = written_out evs
  /\ stderr (run (pythonCall act prm surplus Spawned) evs) = written_err evs.
Proof. apply run_stdout. Qed.

Lemma exit_message_tails (code : option Z) (err out : jsstring) :
  exists t_err t_out,
    exit_message code err out
    = js "Python process exited with code " ++ code_to_js code
      ++ js ". stderr: " ++ t_err ++ js ". stdout: " ++ t_out
    /\ is_tail 500 t_err err /\ is_tail 500 t_out out.
Proof.
  exists (slice_last 500 err), (slice_last 500 out).
  split; [reflexivity|].
  split; (split; [apply slice_last_suffix|apply slice_last_length]).
Qed.

End OneShotFacts.

Section OneShotClaims.
Import OneShot.
Context {rt : Runtime}.

(** C3. On ['close'] the one-shot invoker parses the last non-empty line
    of the accumulated stdout and resolves to its value: whatever
    complete lines come before it ([pre]) are ignored, as is the white
    space after it. *)
Theorem pythonCall_parses_last_line
  (act : jsstring) (prm : option JSON) (surplus : list JSON)
  (evs : list Event) (code : option Z)
  (pre line trailing : jsstring) (v : JSON) :
  no_terminal evs = true ->
  ends_with_line (written_out evs) pre line trailing ->
  JSON_parse line = Some v ->
  promise (run (pythonCall act prm surplus Spawned) (evs ++ [Close code]))
  = Resolved v.
Proof.
  intros Hnt Hshape Hparse.
  rewrite run_app. cbn [run fold_left step]. unfold on_close.
  rewrite (proj1 (pythonCall_accumulates act prm surplus evs)).
  rewrite (lastLine_ends_with_line _ _ _ _ Hshape), Hparse.
  cbn [promise set_promise].
  now rewrite (run_no_terminal _ _ Hnt).
Qed.

(** C4, as the code has it.  When the last line fails to parse, the
    invoker resolves to [{ok: false, error}] whose message holds the exit
    code and the tails, bounded by 500 code units, of stderr and stdout.
    When stdout holds no line at all the text ['{}'] is parsed instead,
    and the invoker resolves to the empty object. *)
Theorem pythonCall_malformed_output
  (act : jsstring) (prm : option JSON) (surplus : list JSON)
  (evs : list Event) (code : option Z) :
  let st' := run (pythonCall act prm surplus Spawned) (evs ++ [Close code]) in
  no_terminal evs = true ->
  (forall pre line trailing,
     ends_with_line (written_out evs) pre line trailing ->
     JSON_parse line = None ->
     exists msg t_err t_out,
       promise st' = Resolved (failure msg)
       /\ response_ok (failure msg) = false
       /\ response_error (failure msg) = Some msg
       /\ msg = js "Python process exited with code " ++ code_to_js code
                ++ js ". stderr: " ++ t_err ++ js ". stdout: " ++ t_out
       /\ includes (code_to_js code) msg = true
       /\ is_tail 500 t_err (written_err evs)
       /\ is_tail 500 t_out (written_out evs))
  /\ (forallb is_ws (written_out evs) = true ->
      JSON_parse (js "{}") = Some (JObject []) ->
      promise st' = Resolved (JObject [])
      /\ response_ok (JObject []) = false
      /\ response_error (JObject []) = None).
Proof.
  intros st' Hnt.
  set (st := run (pythonCall act prm surplus Spawned) evs).
  destruct (pythonCall_accumulates act prm surplus evs) as [Hout Herr].
  fold st in Hout, Herr. rewrite <- Hout, <- Herr.
  assert (promise st = Pending) as Hp
    by (unfold st; now rewrite (run_no_terminal _ _ Hnt)).
  assert (st' = on_close st code) as Hst'.
  { unfold st', st. now rewrite run_app. }
  split.
  - intros pre line trailing Hshape Hparse.
    destruct (exit_message_tails code (stderr st) (stdout st))
      as (t_err & t_out & Hmsg & Hterr & Htout).
    exists (exit_message code (stderr st) (stdout st)), t_err, t_out.
    split; [|split; [reflexivity|split; [reflexivity|split; [exact Hmsg|]]]].
    + rewrite Hst'. unfold on_close.
      rewrite (lastLine_ends_with_line _ _ _ _ Hshape), Hparse.
      cbn [promise set_promise]. now rewrite Hp.
    + split; [|split; assumption].
      rewrite Hmsg. apply includes_app.
  - intros Hblank Hempty. split; [|split; reflexivity].
    rewrite Hst'. unfold on_close.
    rewrite (lastLine_blank _ Hblank), Hempty.
    cbn [promise set_promise]. now rewrite Hp.
Qed.

(** C5, as the code has it.  Once [spawn] has returned the worker, no
    listener of [pythonCall] rejects the promise and the first ['close']
    or ['error'] event resolves it: a spawn failure resolves to
    [{ok: false, error: 'Failed to spawn Python: ' + message}], a last
    line that fails to parse to [{ok: false, error}] with the exit-code
    message, and a last line that parses to its value, whatever the exit
    code: a nonzero exit alone does not make the Response a failure. *)
Theorem pythonCall_never_rejects
  (act : jsstring) (prm : option JSON) (surplus : list JSON) (evs : list Event) :
  let st := run (pythonCall act prm surplus Spawned) evs in
  (forall m, promise st <> Rejected m)
  /\ (existsb is_terminal evs = true -> exists v, promise st = Resolved v)
  /\ (no_terminal evs = true ->
      forall message,
        let r := failure (js "Failed to spawn Python: " ++ message) in
        promise (run (pythonCall act prm surplus Spawned)
                   (evs ++ [Error message]))
        = Resolved r
        /\ response_ok r = false
        /\ response_error r = Some (js "Failed to spawn Python: " ++ message))
  /\ (no_terminal evs = true ->
      JSON_parse (lastLine (written_out evs)) = None ->
      forall code,
        let r := failure (exit_message code (written_err evs)
                            (written_out evs)) in
        promise (run (pythonCall act prm surplus Spawned)
                   (evs ++ [Close code]))
        = Resolved r
        /\ response_ok r = false)
  /\ (no_terminal evs = true ->
      forall v,
        JSON_parse (lastLine (written_out evs)) = Some v ->
        forall code,
          promise (run (pythonCall act prm surplus Spawned)
                     (evs ++ [Close code]))
          = Resolved v).
Proof.
  intros st. split; [|split; [|split; [|split]]].
  - apply run_not_rejected. discriminate.
  - intros H. now apply run_terminal_settles.
  - intros Hnt message r. split; [|split; reflexivity].
    rewrite run_app. cbn [run fold_left step]. unfold on_error.
    cbn [promise set_promise]. now rewrite (run_no_terminal _ _ Hnt).
  - intros Hnt Hparse code r. split; [|reflexivity].
    rewrite run_app. cbn [run fold_left step]. unfold on_close.
    destruct (pythonCall_accumulates act prm surplus evs) as [-> ->].
    rewrite Hparse. cbn [promise set_promise]. unfold r.
    now rewrite (run_no_terminal _ _ Hnt).
  - intros Hnt v Hparse code.
    rewrite run_app. cbn [run fold_left step]. unfold on_close.
    destruct (pythonCall_accumulates act prm surplus evs) as [-> _].
    rewrite Hparse. cbn [promise set_promise].
    now rewrite (run_no_terminal _ _ Hnt).
Qed.

(** C9, as the code has it.  [pythonCall] takes an action and its
    parameters only: a further argument changes nothing, no listener
    kills the worker, and the promise stays pending for as long as the
    worker has neither closed nor failed to start, whatever time passes. *)
Theorem pythonCall_has_no_timeout
  (act : jsstring) (prm : option JSON) (surplus : list JSON) (evs : list Event) :
  let st := run (pythonCall act prm surplus Spawned) evs in
  st = run (pythonCall act prm [] Spawned) evs
  /\ killed st = false
  /\ (no_terminal evs = true -> promise st = Pending).
Proof.
  intros st. split; [reflexivity|]. split.
  - apply run_killed.
  - intros Hnt. unfold st. now rewrite (run_no_terminal _ _ Hnt).
Qed.

End OneShotClaims.

Section OneShotScenarios.
Import OneShot.

(** The scenario of C3: the worker writes a line of noise and the
    answer, then exits with code 0. *)
Lemma pythonCall_noise_then_answer :
  promise (@run Node (pythonCall (js "stats") None [] Spawned)
             [StdoutData noise_then_answer; Close (Some 0%Z)])
  = Resolved answer_x1.
Proof.
  apply (@pythonCall_parses_last_line Node (js "stats") None []
           [StdoutData noise_then_answer] (Some 0%Z)
           (js "noise" ++ [NL]) (jsq "{'ok':true,'data':{'x':1}}") [NL]).
  - reflexivity.
  - unfold ends_with_line. split; [reflexivity|].
    split; [right; exists (js "noise"); reflexivity|].
    split; [vm_compute; intuition discriminate|].
    split; [reflexivity|]. split; [discriminate|reflexivity].
  - reflexivity.
Defined.

(** C4 at a concrete input: a worker that exits with code 1 and writes
    nothing.  The invoker resolves to the empty object, which carries no
    error text. *)
Lemma pythonCall_exit_1_no_output :
  let st := @run Node (pythonCall (js "stats") None [] Spawned)
              [Close (Some 1%Z)] in
  promise st = Resolved (JObject [])
  /\ response_error (JObject []) = None
  /\ ~ (exists v msg, promise st = Resolved v
                      /\ response_error v = Some msg
                      /\ includes (js "1") msg = true).
Proof.
  cbv zeta. split; [reflexivity|]. split; [reflexivity|].
  intros (v & msg & Hv & Herr & _).
  vm_compute in Hv. injection Hv as <-. discriminate.
Qed.

Lemma pythonCall_malformed_output_witness :
  (exists msg,
     promise (@run Node (pythonCall (js "stats") None [] Spawned)
                [StdoutData (bytes "oops" ++ [Byte.x0a]);
                 StderrData (bytes "Traceback"); Close (Some 1%Z)])
     = Resolved (failure msg)
     /\ includes (js "1") msg = true)
  /\ promise (@run Node (pythonCall (js "stats") None [] Spawned)
                [Close (Some 1%Z)])
     = Resolved (JObject []).
Proof.
  split.
  - destruct (@pythonCall_malformed_output Node (js "stats") None []
                [StdoutData (bytes "oops" ++ [Byte.x0a]);
                 StderrData (bytes "Traceback")] (Some 1%Z) eq_refl)
      as [H _].
    destruct (H [] (js "oops") [NL]) as (msg & _ & _ & Hp & _ & _ & _ & Hin & _).
    + unfold ends_with_line. split; [reflexivity|]. split; [now left|].
      split; [vm_compute; intuition discriminate|].
      split; [reflexivity|]. split; [discriminate|reflexivity].
    + reflexivity.
    + exists msg. split; [exact Hp|exact Hin].
  - destruct (@pythonCall_malformed_output Node (js "stats") None []
                [] (Some 1%Z) eq_refl) as [_ H].
    destruct (H eq_refl eq_refl) as [Hp _]. exact Hp.
Defined.

(** C5 at concrete inputs.  First, the worker prints a success line and
    exits with code 1: the invoker resolves to that line, an ok
    Response.  Second, the action holds U+0000: [spawn] refuses the
    argument and throws inside the executor, no worker is started and
    the promise is rejected. *)
Lemma pythonCall_exit_code_ignored_and_throw_rejects :
  let st := @run Node (pythonCall (js "stats") None [] Spawned)
              [StdoutData (bytesq "{'ok':true}" ++ [Byte.x0a]);
               Close (Some 1%Z)] in
  let thrown := @run Node
                  (pythonCall [97%N; 0%N; 98%N] None []
                     (Threw null_byte_message))
                  [] in
  (promise st = Resolved (JObject [(js "ok", JBool true)])
   /\ response_ok (JObject [(js "ok", JBool true)]) = true
   /\ ~ (exists v, promise st = Resolved v /\ response_ok v = false))
  /\ (promise thrown
      = Rejected null_byte_message
      /\ ~ (exists v, promise thrown = Resolved v)).
Proof.
  cbv zeta. split.
  - split; [reflexivity|]. split; [reflexivity|].
    intros (v & Hv & Hok). vm_compute in Hv. injection Hv as <-. discriminate.
  - split; [reflexivity|]. intros (v & Hv). discriminate.
Qed.

Lemma pythonCall_never_rejects_witness :
  (exists v,
     promise (@run Node (pythonCall (js "stats") None [] Spawned)
                [StdoutData (bytes "oops"); Close None])
     = Resolved v)
  /\ promise (@run Node (pythonCall (js "stats") None [] Spawned)
                [Error (js "spawn python3 ENOENT")])
     = Resolved (failure (js "Failed to spawn Python: spawn python3 ENOENT"))
  /\ response_ok
       (failure (exit_message None [] (js "oops"))) = false
  /\ promise (@run Node (pythonCall (js "stats") None [] Spawned)
                [StdoutData noise_then_answer; Close (Some 3%Z)])
     = Resolved answer_x1.
Proof.
  pose proof (@pythonCall_never_rejects Node (js "stats") None []
                [StdoutData (bytes "oops"); Close None]) as (_ & H2 & _ & _).
  pose proof (@pythonCall_never_rejects Node (js "stats") None []
                []) as (_ & _ & H3 & _).
  pose proof (@pythonCall_never_rejects Node (js "stats") None []
                [StdoutData (bytes "oops")]) as (_ & _ & _ & H4 & _).
  pose proof (@pythonCall_never_rejects Node (js "stats") None []
                [StdoutData noise_then_answer]) as (_ & _ & _ & _ & H5).
  split; [exact (H2 eq_refl)|].
  split; [exact (proj1 (H3 eq_refl (js "spawn python3 ENOENT")))|].
  split; [exact (proj2 (H4 eq_refl eq_refl None))|].
  exact (H5 eq_refl answer_x1 eq_refl (Some 3%Z)).
Defined.

(** C9 at a concrete input: a third argument of 1000 and five seconds
    without any event from the worker.  Nothing is resolved and the
    worker is not killed. *)
Lemma pythonCall_timeout_ignored :
  let st := @run Node (pythonCall (js "stats") None
                         [JNumber 1000%Q] Spawned) [Elapsed 5000] in
  promise st = Pending /\ killed st = false
  /\ ~ (exists v, promise st = Resolved v).
Proof.
  cbv zeta. split; [reflexivity|]. split; [reflexivity|].
  intros (v & Hv). discriminate.
Qed.

Lemma pythonCall_has_no_timeout_witness :
  promise (@run Node (pythonCall (js "stats") None [JNumber 1000%Q] Spawned)
             [StdoutData (bytes "working"); Elapsed 5000])
  = Pending.
Proof.
  exact (proj2 (proj2 (@pythonCall_has_no_timeout Node (js "stats")
                         None [JNumber 1000%Q]
                         [StdoutData (bytes "working"); Elapsed 5000]))
           eq_refl).
Defined.

End OneShotScenarios.

(** ** The persistent bridge *)

Section BridgeFacts.
Import Bridge.
Context {rt : Runtime}.

Lemma popped_split (s : jsstring) : popped (split_nl s) = fragment s.
Proof.
  unfold popped, fragment.
  rewrite (last_elem_last _ (split_nl_nonempty s)).
  now destruct (last (split_nl s) []).
Qed.

Lemma fragment_complete (s : jsstring) : complete s -> fragment s = [].
Proof.
  unfold fragment. intros [->|(y & ->)]; [reflexivity|].
  change (y ++ [NL]) with (y ++ NL :: []).
  rewrite split_nl_app_nl. simpl. apply last_last.
Qed.

Lemma complete_lines_app_nl (a b : jsstring) :
  complete_lines (a ++ NL :: b) = split_nl a ++ complete_lines b.
Proof.
  unfold complete_lines. rewrite split_nl_app_nl.
  apply removelast_app, split_nl_nonempty.
Qed.

(** Appending a chunk keeps the complete lines found so far and goes on
    from the fragment that was kept. *)
Lemma complete_lines_app (a b : jsstring) :
  complete_lines (a ++ b)
  = complete_lines a ++ complete_lines (fragment a ++ b).
Proof.
  unfold complete_lines, fragment. rewrite split_nl_app.
  apply removelast_app, split_nl_nonempty.
Qed.

Lemma last_app_nonempty {A} (l l' : list A) (d : A) :
  l' <> [] -> last (l ++ l') d = last l' d.
Proof.
  intros H. induction l as [|x l IH]; [reflexivity|].
  simpl. rewrite IH. destruct (l ++ l') eqn:E; [|reflexivity].
  apply app_eq_nil in E as [_ ->]. contradiction.
Qed.

Lemma fragment_app (a b : jsstring) :
  fragment (a ++ b) = fragment (fragment a ++ b).
Proof.
  unfold fragment. rewrite split_nl_app.
  apply last_app_nonempty, split_nl_nonempty.
Qed.

Lemma process_line_skip (st : State) (line : jsstring) :
  parsed line = None -> process_line st line = (st, []).
Proof.
  unfold parsed, process_line. destruct (truthy (trim line)); simpl.
  - now intros ->.
  - reflexivity.
Qed.

Lemma process_line_idle (st : State) (line : jsstring) :
  pending st = [] -> process_line st line = (st, []).
Proof.
  intros H. unfold process_line.
  destruct (negb (truthy (trim line))); [reflexivity|].
  destruct (JSON_parse line); [|reflexivity]. now rewrite H.
Qed.

Lemma process_line_resolve (st : State) (line : jsstring) (v : JSON)
      (k : N) (h : Handler) (r : list (N * Handler)) :
  parsed line = Some v -> pending st = (k, h) :: r ->
  process_line st line = (set_pending st r, [Resolve (promise_of h) v]).
Proof.
  unfold parsed, process_line. destruct (truthy (trim line)); simpl;
    [|discriminate].
  intros -> ->. simpl. now rewrite N.eqb_refl.
Qed.

Lemma process_line_set_buffer (st : State) (b line : jsstring) :
  process_line (set_buffer st b) line
  = (set_buffer (fst (process_line st line)) b, snd (process_line st line)).
Proof.
  unfold process_line.
  destruct (negb (truthy (trim line))); [reflexivity|].
  destruct (JSON_parse line); [|reflexivity]. simpl.
  destruct (first_key (pending st)); reflexivity.
Qed.

Lemma process_lines_set_buffer (st : State) (b : jsstring)
      (lines : list jsstring) :
  process_lines (set_buffer st b) lines
  = (set_buffer (fst (process_lines st lines)) b,
     snd (process_lines st lines)).
Proof.
  revert st. induction lines as [|l r IH]; intros st; [reflexivity|].
  simpl. rewrite process_line_set_buffer.
  destruct (process_line st l) as [s1 e1]. simpl.
  rewrite IH. destruct (process_lines s1 r) as [s2 e2]. reflexivity.
Qed.

Lemma process_lines_app (st : State) (a b : list jsstring) :
  process_lines st (a ++ b)
  = (fst (process_lines (fst (process_lines st a)) b),
     snd (process_lines st a) ++ snd (process_lines (fst (process_lines st a)) b)).
Proof.
  revert st. induction a as [|l r IH]; intros st.
  - simpl. now destruct (process_lines st b).
  - simpl. destruct (process_line st l) as [s1 e1].
    rewrite IH. destruct (process_lines s1 r) as [s2 e2]. simpl.
    now rewrite app_assoc.
Qed.

Lemma process_lines_idle (st : State) (lines : list jsstring) :
  pending st = [] -> process_lines st lines = (st, []).
Proof.
  intros H. induction lines as [|l r IH]; [reflexivity|].
  simpl. now rewrite (process_line_idle st l H), IH.
Qed.

Lemma set_pending_same (st : State) : set_pending st (pending st) = st.
Proof. now destruct st. Qed.

Lemma set_buffer_same (st : State) : set_buffer st (buffer st) = st.
Proof. now destruct st. Qed.

(** The loop resolves the pending requests from the oldest on, one for
    each line that parses, and stops handing out values when none is
    left. *)
Lemma process_lines_fifo (st : State) (lines : list jsstring) :
  process_lines st lines
  = (set_pending st (skipn (List.length (parsed_values lines)) (pending st)),
     resolutions (handlers (pending st)) (parsed_values lines)).
Proof.
  revert st. induction lines as [|l r IH]; intros st.
  - unfold resolutions. simpl.
    rewrite set_pending_same. now destruct (handlers (pending st)).
  - cbn [process_lines parsed_values flat_map].
    destruct (parsed l) as [v|] eqn:Ep.
    + destruct (pending st) as [|[k h] m] eqn:Epend.
      * rewrite (process_line_idle st l Epend), (process_lines_idle st r Epend).
        rewrite skipn_nil. unfold resolutions. simpl.
        now rewrite <- Epend, set_pending_same.
      * rewrite (process_line_resolve st l v k h m Ep Epend), IH.
        simpl. reflexivity.
    + rewrite (process_line_skip st l Ep), IH. reflexivity.
Qed.

Lemma feed_text_lines (st : State) (text : jsstring) :
  feed_text st text
  = process_lines (set_buffer st (fragment (buffer st ++ text)))
                  (complete_lines (buffer st ++ text)).
Proof.
  unfold feed_text, _processBuffer. cbn [buffer set_buffer].
  rewrite popped_split. unfold complete_lines. now destruct st.
Qed.

Lemma feed_text_buffer (st : State) (text : jsstring) :
  buffer (fst (feed_text st text)) = fragment (buffer st ++ text).
Proof.
  rewrite feed_text_lines, process_lines_set_buffer. reflexivity.
Qed.

(** Feeding a text in two pieces is feeding it at once: same state, same
    effects in the same order. *)
Lemma feed_text_app (st : State) (a b : jsstring) :
  feed_text st (a ++ b)
  = (fst (feed_text (fst (feed_text st a)) b),
     snd (feed_text st a) ++ snd (feed_text (fst (feed_text st a)) b)).
Proof.
  rewrite (feed_text_lines (fst (feed_text st a)) b), feed_text_buffer.
  rewrite !feed_text_lines, app_assoc.
  rewrite (complete_lines_app (buffer st ++ a) b).
  rewrite (fragment_app (buffer st ++ a) b).
  set (fr := fragment (fragment (buffer st ++ a) ++ b)).
  set (la := complete_lines (buffer st ++ a)).
  set (lb := complete_lines (fragment (buffer st ++ a) ++ b)).
  rewrite process_lines_app.
  rewrite !process_lines_set_buffer. cbn [fst snd].
  rewrite !process_lines_set_buffer. cbn [fst snd].
  reflexivity.
Qed.

End BridgeFacts.

Section BridgeInvariant.
Import Bridge.
Context {rt : Runtime}.

Lemma N_seq_S (a : N) (n : nat) :
  N_seq a (S n) = N_seq a n ++ [(a + N.of_nat n)%N].
Proof. unfold N_seq. now rewrite seq_S, map_app. Qed.

Lemma N_seq_cons (a : N) (n : nat) :
  N_seq a (S n) = a :: N_seq (a + 1) n.
Proof.
  unfold N_seq. simpl. rewrite N.add_0_r. f_equal.
  rewrite <- seq_shift, map_map. apply map_ext. intros i. lia.
Qed.

Lemma N_seq_In (a : N) (n : nat) (x : N) :
  In x (N_seq a n) -> (a <= x < a + N.of_nat n)%N.
Proof.
  unfold N_seq. rewrite in_map_iff. intros (i & <- & Hi).
  apply in_seq in Hi. lia.
Qed.

Lemma N_seq_NoDup (a : N) (n : nat) : NoDup (N_seq a n).
Proof.
  revert a. induction n as [|n IH]; intros a; [constructor|].
  rewrite N_seq_cons. constructor; [|apply IH].
  intros H. apply N_seq_In in H. lia.
Qed.

Lemma issued_next (st : State) :
  (1 <= nextId st)%N ->
  issued (set_nextId st (nextId st + 1)) = issued st ++ [nextId st].
Proof.
  intros H. unfold issued. cbn [nextId set_nextId].
  replace (N.to_nat (nextId st + 1 - 1)) with (S (N.to_nat (nextId st - 1)))
    by lia.
  rewrite N_seq_S. do 2 f_equal. lia.
Qed.

Lemma map_set_fresh (k : N) (h : Handler) (m : list (N * Handler)) :
  ~ In k (map fst m) -> map_set k h m = m ++ [(k, h)].
Proof.
  induction m as [|[k' h'] r IH]; simpl; intros H; [reflexivity|].
  destruct (N.eqb_spec k k') as [->|_]; [exfalso; auto|].
  rewrite IH; auto.
Qed.

Lemma settled_app (a b : list Effect) : settled (a ++ b) = settled a ++ settled b.
Proof. apply flat_map_app. Qed.

Lemma settled_resolutions (ps : list N) (vs : list JSON) :
  settled (resolutions ps vs) = firstn (List.length vs) ps.
Proof.
  revert vs. induction ps as [|p ps IH]; intros [|v vs]; simpl; try reflexivity.
  f_equal. apply IH.
Qed.

Lemma settled_rejections (m : list (N * Handler)) :
  settled (map (fun kh => Reject (promise_of (snd kh)) CLOSED_MESSAGE) m)
  = handlers m.
Proof. induction m as [|kh r IH]; simpl; [reflexivity|]. now rewrite IH. Qed.

Lemma handlers_keys (m : list (N * Handler)) :
  Forall (fun kh => promise_of (snd kh) = fst kh) m -> handlers m = map fst m.
Proof.
  induction 1 as [|kh r H _ IH]; simpl; [reflexivity|]. now rewrite H, IH.
Qed.

Lemma wf_new (onStderr : bool) : wf (new_bridge onStderr) [].
Proof. repeat split. - constructor. - simpl. lia. Qed.

Lemma wf_keys_below (st : State) (log : list Effect) :
  wf st log -> ~ In (nextId st) (map fst (pending st)).
Proof.
  intros (Hseq & _ & Hn) Hin.
  assert (In (nextId st) (issued st)) as H
    by (rewrite <- Hseq; apply in_or_app; now right).
  apply N_seq_In in H. lia.
Qed.

(** A call appends its entry to the map: the id is fresh. *)
Lemma call_pending (st : State) (log : list Effect)
      (a : jsstring) (p : option JSON) :
  wf st log ->
  pending (fst (call st a p))
  = pending st ++ [(nextId st, {| promise_of := nextId st |})]
  /\ nextId (fst (call st a p)) = (nextId st + 1)%N
  /\ settled (snd (call st a p)) = [].
Proof.
  intros Hwf. pose proof (wf_keys_below st log Hwf) as Hfresh.
  unfold call. destruct (child st) as [c|] eqn:Ec; simpl; rewrite ?Ec;
    (split; [now apply map_set_fresh|split; reflexivity]).
Qed.

Lemma wf_step (st : State) (log : list Effect) (ev : Event) :
  wf st log -> wf (fst (step st ev)) (log ++ snd (step st ev)).
Proof.
  intros Hwf. pose proof Hwf as (Hseq & Hkeys & Hn).
  destruct ev as [a p| | |c d|c d|c].
  - destruct (call_pending st log a p Hwf) as (Hp & Hid & Hs).
    cbn [step]. unfold wf, issued. rewrite Hp, Hid, settled_app, Hs, app_nil_r.
    split; [|split].
    + rewrite map_app, app_assoc, Hseq. simpl.
      pose proof (issued_next st Hn) as Hi. unfold issued in Hi.
      cbn [nextId set_nextId] in Hi. symmetry. exact Hi.
    + apply Forall_app. split; [assumption|]. now constructor.
    + lia.
  - cbn [step]. unfold start, wf, issued. cbn [fst snd].
    rewrite settled_app. simpl. rewrite app_nil_r. auto.
  - cbn [step]. unfold stop, wf, issued.
    destruct (child st); cbn [fst snd]; rewrite settled_app; simpl;
      rewrite app_nil_r; auto.
  - cbn [step]. unfold on_stdout.
    rewrite feed_text_lines, process_lines_set_buffer, process_lines_fifo.
    cbn [fst snd]. unfold wf, issued. cbn [pending nextId set_pending set_buffer].
    rewrite settled_app, settled_resolutions, (handlers_keys _ Hkeys).
    split; [|split].
    + rewrite <- app_assoc, <- skipn_map, firstn_skipn. exact Hseq.
    + clear Hseq. revert Hkeys.
      generalize (List.length
                    (parsed_values
                       (complete_lines (buffer st ++ Buffer_toString d)))).
      intros n. revert n.
      induction (pending st) as [|kh r IH]; intros [|n] H; simpl; auto.
      apply IH. now inversion H.
    + exact Hn.
  - cbn [step]. unfold on_stderr, wf, issued.
    destruct (stderrCallback st); cbn [fst snd]; rewrite settled_app; simpl;
      rewrite app_nil_r; auto.
  - cbn [step]. unfold on_close, wf, issued. simpl.
    rewrite settled_app, settled_rejections, (handlers_keys _ Hkeys), app_nil_r.
    split; [exact Hseq|]. split; [constructor|exact Hn].
Qed.

Lemma bridge_run_cons (st : State) (ev : Event) (evs : list Event) :
  run st (ev :: evs)
  = (fst (run (fst (step st ev)) evs),
     snd (step st ev) ++ snd (run (fst (step st ev)) evs)).
Proof.
  simpl. destruct (step st ev) as [s1 e1]. simpl.
  now destruct (run s1 evs).
Qed.

Lemma bridge_run_app (st : State) (a b : list Event) :
  run st (a ++ b)
  = (fst (run (fst (run st a)) b),
     snd (run st a) ++ snd (run (fst (run st a)) b)).
Proof.
  revert st. induction a as [|ev r IH]; intros st.
  - simpl. now destruct (run st b).
  - rewrite <- app_comm_cons, !bridge_run_cons, IH. cbn [fst snd].
    now rewrite app_assoc.
Qed.

Lemma wf_run (st : State) (log : list Effect) (evs : list Event) :
  wf st log -> wf (fst (run st evs)) (log ++ snd (run st evs)).
Proof.
  revert st log. induction evs as [|ev r IH]; intros st log Hwf.
  - simpl. now rewrite app_nil_r.
  - rewrite bridge_run_cons. cbn [fst snd]. rewrite app_assoc.
    apply IH. now apply wf_step.
Qed.

Lemma wf_reachable (onStderr : bool) (evs : list Event) :
  wf (fst (run (new_bridge onStderr) evs))
     (snd (run (new_bridge onStderr) evs)).
Proof. apply (wf_run _ [] evs (wf_new onStderr)). Qed.

Lemma outcome_app (a b : list Effect) (p : N) :
  outcome (a ++ b) p
  = match outcome a p with Pending => outcome b p | o => o end.
Proof.
  induction a as [|e r IH]; simpl; [now destruct (outcome b p)|].
  destruct e; try exact IH; destruct (N.eqb _ p); auto.
Qed.

Lemma outcome_unsettled (log : list Effect) (p : N) :
  ~ In p (settled log) -> outcome log p = Pending.
Proof.
  induction log as [|e r IH]; simpl; intros H; [reflexivity|].
  destruct e; simpl in H; auto;
    (destruct (N.eqb_spec p0 p) as [->|_]; [exfalso; auto|auto]).
Qed.

Lemma wf_NoDup (st : State) (log : list Effect) :
  wf st log -> NoDup (settled log ++ handlers (pending st)).
Proof.
  intros (Hseq & Hkeys & _). rewrite (handlers_keys _ Hkeys), Hseq.
  apply N_seq_NoDup.
Qed.

(** A request that is in the map has not been answered yet. *)
Lemma wf_pending_unsettled (st : State) (log : list Effect) (p : N) :
  wf st log -> In p (handlers (pending st)) -> outcome log p = Pending.
Proof.
  intros Hwf Hin. apply outcome_unsettled. intros Hs.
  pose proof (wf_NoDup st log Hwf) as Hnd.
  revert Hnd Hs Hin. generalize (settled log) (handlers (pending st)).
  intros l1 l2 Hnd H1 H2.
  apply in_split in H1 as (x & y & ->).
  rewrite <- app_assoc in Hnd. simpl in Hnd.
  apply NoDup_remove_2 in Hnd. apply Hnd.
  rewrite app_assoc. apply in_or_app. now right.
Qed.

Lemma outcome_resolutions (ps : list N) (vs : list JSON)
      (i : nat) (p : N) (v : JSON) :
  NoDup ps -> nth_error ps i = Some p -> nth_error vs i = Some v ->
  outcome (resolutions ps vs) p = Resolved v.
Proof.
  revert vs i. induction ps as [|q ps IH]; intros vs i Hnd Hp Hv.
  - destruct i; discriminate.
  - destruct vs as [|w vs]; [destruct i; discriminate|].
    unfold resolutions. simpl. destruct i as [|i]; simpl in Hp, Hv.
    + injection Hp as ->. injection Hv as ->. now rewrite N.eqb_refl.
    + inversion Hnd as [|? ? Hq Hnd']; subst.
      destruct (N.eqb_spec q p) as [->|_].
      * exfalso. apply Hq. now apply nth_error_In in Hp.
      * now apply (IH vs i).
Qed.

Lemma outcome_rejections (m : list (N * Handler)) (p : N) :
  In p (handlers m) ->
  outcome (map (fun kh => Reject (promise_of (snd kh)) CLOSED_MESSAGE) m) p
  = Rejected CLOSED_MESSAGE.
Proof.
  induction m as [|kh r IH]; simpl; [contradiction|].
  intros [<-|H]; [now rewrite N.eqb_refl|].
  destruct (N.eqb _ p); auto.
Qed.

(** Calls are queued behind the requests that are pending, in the order
    they are made. *)
Lemma run_calls (st : State) (log : list Effect)
      (calls : list (jsstring * option JSON)) :
  wf st log ->
  handlers (pending (fst (run st (map mk_call calls))))
  = handlers (pending st) ++ N_seq (nextId st) (List.length calls)
  /\ nextId (fst (run st (map mk_call calls)))
     = (nextId st + N.of_nat (List.length calls))%N.
Proof.
  revert st log. induction calls as [|[a p] r IH]; intros st log Hwf.
  - simpl. unfold N_seq. simpl. rewrite app_nil_r. split; [reflexivity|lia].
  - cbn [map]. rewrite bridge_run_cons. cbn [fst List.length].
    pose proof (wf_step st log (mk_call (a, p)) Hwf) as Hwf'.
    destruct (IH _ _ Hwf') as (Hh & Hn). rewrite Hh, Hn.
    destruct (call_pending st log a p Hwf) as (Hp & Hid & _).
    unfold mk_call. cbn [step fst snd]. rewrite Hp, Hid.
    unfold handlers at 1. rewrite map_app. simpl.
    rewrite N_seq_cons, <- app_assoc. split; [reflexivity|lia].
Qed.

(** X21. Over any trace the promises are settled in the order of the
    calls that returned them: the settled ones followed by the pending
    ones are the promises of calls 1, 2, 3, ... *)
Lemma promises_settle_in_call_order (onStderr : bool) (evs : list Event) :
  let st := fst (run (new_bridge onStderr) evs) in
  let log := snd (run (new_bridge onStderr) evs) in
  settled log ++ handlers (pending st)
  = N_seq 1 (N.to_nat (nextId st - 1)).
Proof.
  intros st log. destruct (wf_reachable onStderr evs) as (Hseq & Hkeys & _).
  fold st log in Hseq, Hkeys. now rewrite (handlers_keys _ Hkeys).
Qed.

End BridgeInvariant.

Section BridgeClaims.
Import Bridge.
Context {rt : Runtime}.

(** C1. Responses are matched to calls by order of arrival.  In any
    state the bridge can reach, further calls are queued behind the
    pending ones in the order they are made; when a chunk of output
    arrives, the i-th line of it that parses resolves the i-th oldest
    pending call, and the future of that call takes that value. *)
Theorem fifo_correlation
  (onStderr : bool) (evs : list Event) (calls : list (jsstring * option JSON))
  (c : ChildId) (data : list Byte.byte) :
  let st0 := fst (run (new_bridge onStderr) evs) in
  let st1 := fst (run st0 (map mk_call calls)) in
  let log := snd (run (new_bridge onStderr) (evs ++ map mk_call calls)) in
  let st2 := fst (step st1 (StdoutData c data)) in
  let e := snd (step st1 (StdoutData c data)) in
  let vs := parsed_values
              (complete_lines (buffer st1 ++ Buffer_toString data)) in
  handlers (pending st1)
  = handlers (pending st0) ++ N_seq (nextId st0) (List.length calls)
  /\ e = resolutions (handlers (pending st1)) vs
  /\ pending st2 = skipn (List.length vs) (pending st1)
  /\ forall i p v,
       nth_error (handlers (pending st1)) i = Some p ->
       nth_error vs i = Some v ->
       outcome (log ++ e) p = Resolved v.
Proof.
  intros st0 st1 log st2 e vs.
  pose proof (wf_reachable onStderr evs) as Hwf0. fold st0 in Hwf0.
  pose proof (wf_reachable onStderr (evs ++ map mk_call calls)) as Hwf1.
  rewrite bridge_run_app in Hwf1. cbn [fst snd] in Hwf1.
  fold st0 st1 in Hwf1.
  assert (step st1 (StdoutData c data)
          = (set_buffer (set_pending st1 (skipn (List.length vs) (pending st1)))
               (fragment (buffer st1 ++ Buffer_toString data)),
             resolutions (handlers (pending st1)) vs)) as Hstep.
  { cbn [step]. unfold on_stdout.
    rewrite feed_text_lines, process_lines_set_buffer, process_lines_fifo.
    reflexivity. }
  split; [|split; [|split]].
  - exact (proj1 (run_calls st0 _ calls Hwf0)).
  - unfold e. now rewrite Hstep.
  - unfold st2. now rewrite Hstep.
  - intros i p v Hp Hv. unfold log, e.
    rewrite bridge_run_app. cbn [snd]. fold st0 st1.
    rewrite outcome_app, (wf_pending_unsettled st1 _ p Hwf1)
      by (now apply nth_error_In in Hp).
    rewrite Hstep. cbn [snd].
    apply (outcome_resolutions _ _ i); [|assumption|assumption].
    pose proof (wf_NoDup st1 _ Hwf1) as Hnd.
    now apply NoDup_app_remove_l in Hnd.
Qed.

(** C2. When the worker closes, every call that is pending in a state
    the bridge can reach is rejected with [Python process closed], and
    the map of pending requests is left empty. *)
Theorem close_rejects_all_pending
  (onStderr : bool) (evs : list Event) (c : ChildId) :
  let st := fst (run (new_bridge onStderr) evs) in
  let log := snd (run (new_bridge onStderr) evs) in
  let st' := fst (step st (Close c)) in
  let e := snd (step st (Close c)) in
  pending st' = []
  /\ forall p, In p (handlers (pending st)) ->
               outcome log p = Pending
               /\ outcome (log ++ e) p = Rejected CLOSED_MESSAGE.
Proof.
  intros st log st' e. split; [reflexivity|].
  intros p Hp.
  pose proof (wf_pending_unsettled st log p (wf_reachable onStderr evs) Hp)
    as Hpend.
  split; [exact Hpend|].
  rewrite outcome_app, Hpend. now apply outcome_rejections.
Qed.

(** C7. A complete line that is blank or that [JSON.parse] refuses is
    dropped: the output with that line gives the state and the effects of
    the output without it. *)
Theorem bad_line_dropped (st : State) (pre bad post : jsstring) :
  complete (buffer st ++ pre) ->
  ~ In NL bad ->
  (trim bad = [] \/ JSON_parse bad = None) ->
  feed_text st (pre ++ bad ++ NL :: post) = feed_text st (pre ++ post).
Proof.
  intros Hc Hnl Hbad.
  assert (parsed bad = None) as Hp.
  { unfold parsed. destruct Hbad as [-> | ->]; [reflexivity|].
    now destruct (truthy (trim bad)). }
  rewrite !feed_text_lines, !app_assoc.
  rewrite <- (app_assoc (buffer st ++ pre) bad).
  rewrite !(complete_lines_app (buffer st ++ pre)).
  rewrite !(fragment_app (buffer st ++ pre)).
  rewrite (fragment_complete _ Hc). cbn [app].
  rewrite complete_lines_app_nl, (split_nl_no_nl bad Hnl).
  assert (fragment (bad ++ NL :: post) = fragment post) as ->.
  { unfold fragment. rewrite split_nl_app_nl.
    apply last_app_nonempty, split_nl_nonempty. }
  rewrite !process_lines_app. cbn [app process_lines].
  rewrite (process_line_skip _ bad Hp).
  now destruct (process_lines _ (complete_lines post)).
Qed.

(** C10. A line that parses while nothing is pending is discarded: no
    effect, and only the buffer of the bridge can differ afterwards; when
    the text is made of complete lines the state is the same. *)
Theorem unsolicited_line_discarded (st : State) (text : jsstring) :
  pending st = [] ->
  feed_text st text = (set_buffer st (fragment (buffer st ++ text)), [])
  /\ (buffer st = [] -> complete text -> feed_text st text = (st, [])).
Proof.
  intros Hp.
  assert (feed_text st text
          = (set_buffer st (fragment (buffer st ++ text)), [])) as H.
  { rewrite feed_text_lines. now apply process_lines_idle. }
  split; [exact H|].
  intros Hb Hc. rewrite H, Hb. cbn [app].
  rewrite (fragment_complete _ Hc), <- Hb. now rewrite set_buffer_same.
Qed.

Lemma run_calls_env (st : State) (calls : list (jsstring * option JSON)) (c : ChildId) :
  child st = Some c ->
  child (fst (run st (map mk_call calls))) = Some c
  /\ spawned (fst (run st (map mk_call calls))) = spawned st
  /\ closed (fst (run st (map mk_call calls))) = closed st.
Proof.
  revert st. induction calls as [|[a p] r IH]; intros st Hc; [auto|].
  cbn [map]. rewrite bridge_run_cons. cbn [fst].
  assert (child (fst (step st (mk_call (a, p)))) = Some c
          /\ spawned (fst (step st (mk_call (a, p)))) = spawned st
          /\ closed (fst (step st (mk_call (a, p)))) = closed st)
    as (H1 & H2 & H3).
  { unfold mk_call. cbn [step fst snd]. unfold call. rewrite Hc. auto. }
  destruct (IH _ H1) as (I1 & I2 & I3).
  rewrite I1, I2, I3. auto.
Qed.

(** C8, the code at its failing input.  The worker closes without
    [stop()] having been called; the calls made afterwards are written
    to the worker that closed: no worker is spawned, none of the calls is
    settled, and no worker is left to deliver an event. *)
Theorem call_after_close_stays_pending
  (onStderr : bool) (a : jsstring) (pa : option JSON)
  (calls : list (jsstring * option JSON)) :
  let evs := Call a pa :: Close 0 :: map mk_call calls in
  let st := fst (run (new_bridge onStderr) evs) in
  let log := snd (run (new_bridge onStderr) evs) in
  child st = Some 0 /\ spawned st = 1 /\ closed st = [0]
  /\ handlers (pending st) = N_seq 2 (List.length calls)
  /\ Forall (fun p => outcome log p = Pending) (handlers (pending st))
  /\ settled log = [1%N]
  /\ forall c, alive st c = false.
Proof.
  intros evs st log.
  pose proof (wf_reachable onStderr evs) as Hwf. fold st log in Hwf.
  pose proof (wf_reachable onStderr [Call a pa; Close 0]) as Hwf1.
  set (s1 := fst (run (new_bridge onStderr) [Call a pa; Close 0])) in *.
  assert (st = fst (run s1 (map mk_call calls))) as Hst.
  { unfold st, evs.
    change (Call a pa :: Close 0 :: map mk_call calls)
      with ([Call a pa; Close 0] ++ map mk_call calls).
    now rewrite bridge_run_app. }
  destruct (run_calls_env s1 calls 0 eq_refl) as (Hc & Hs & Hcl).
  destruct (run_calls s1 _ calls Hwf1) as (Hh & _).
  rewrite <- Hst in Hc, Hs, Hcl, Hh.
  assert (handlers (pending st) = N_seq 2 (List.length calls)) as Hh'
    by exact Hh.
  assert (forall c, alive st c = false) as Halive.
  { intros c. unfold alive. rewrite Hs, Hcl.
    change (spawned s1) with 1. change (closed s1) with [0].
    destruct c as [|c]; [reflexivity|].
    destruct (Nat.ltb_spec (S c) 1); [lia|reflexivity]. }
  assert (Forall (fun p => outcome log p = Pending) (handlers (pending st)))
    as Hpend.
  { apply Forall_forall. intros p Hp.
    now apply (wf_pending_unsettled st log p Hwf). }
  assert (settled log = [1%N]) as Hset.
  { destruct Hwf as (Hseq & Hkeys & _).
    rewrite <- (handlers_keys _ Hkeys), Hh' in Hseq.
    assert (issued st = 1%N :: N_seq 2 (List.length calls)) as Hi.
    { unfold issued. destruct (run_calls s1 _ calls Hwf1) as (_ & Hn).
      rewrite <- Hst in Hn. rewrite Hn. change (nextId s1) with 2%N.
      replace (N.to_nat (2 + N.of_nat (List.length calls) - 1))
        with (S (List.length calls)) by lia.
      apply N_seq_cons. }
    rewrite Hi in Hseq.
    change (1%N :: N_seq 2 (List.length calls))
      with ([1%N] ++ N_seq 2 (List.length calls)) in Hseq.
    now apply app_inv_tail in Hseq. }
  change (spawned s1) with 1 in Hs. change (closed s1) with [0] in Hcl.
  repeat (split; [assumption|]). assumption.
Qed.

End BridgeClaims.

Section ChunkInvariance.
Import Bridge.
Context {rt : Runtime}.

(** Two chunks whose decodings concatenate to the decoding of their
    concatenation are framed as one chunk is. *)
Lemma on_stdout_chunks (st : State) (a b : list Byte.byte) :
  Buffer_toString (a ++ b) = Buffer_toString a ++ Buffer_toString b ->
  on_stdout st (a ++ b)
  = (fst (on_stdout (fst (on_stdout st a)) b),
     snd (on_stdout st a) ++ snd (on_stdout (fst (on_stdout st a)) b)).
Proof. intros H. unfold on_stdout. rewrite H. apply feed_text_app. Qed.

End ChunkInvariance.

(** The decoder of the concrete runtime cuts anywhere after a chunk of
    ASCII bytes. *)
Lemma utf8_decode_ascii (a b : list Byte.byte) :
  Forall (fun x => (Byte.to_N x <= 127)%N) a ->
  NodeRuntime.utf8_decode (a ++ b)
  = NodeRuntime.utf8_decode a ++ NodeRuntime.utf8_decode b.
Proof.
  unfold NodeRuntime.utf8_decode.
  induction 1 as [|x r Hx _ IH]; [reflexivity|].
  cbn [app NodeRuntime.utf8_decode_from].
  unfold NodeRuntime.utf8_step. cbn [NodeRuntime.needed NodeRuntime.utf8_init].
  cbn [N.eqb]. unfold NodeRuntime.utf8_lead.
  apply N.leb_le in Hx. rewrite Hx. cbn [app]. now rewrite IH.
Qed.

(** With that decoder, output in ASCII is framed the same however it is
    cut into chunks. *)
Lemma ascii_chunks_framed_alike (st : Bridge.State) (a b : list Byte.byte) :
  Forall (fun x => (Byte.to_N x <= 127)%N) a ->
  @Bridge.on_stdout Node st (a ++ b)
  = (fst (@Bridge.on_stdout Node (fst (@Bridge.on_stdout Node st a)) b),
     snd (@Bridge.on_stdout Node st a)
     ++ snd (@Bridge.on_stdout Node (fst (@Bridge.on_stdout Node st a)) b)).
Proof.
  intros H. apply (@on_stdout_chunks Node). now apply utf8_decode_ascii.
Qed.

Section BridgeScenarios.
Import Bridge.

(** The scenario of C1: calls A then B, then the two answers in order. *)
Lemma fifo_two_calls :
  let log := snd (@run Node (new_bridge false)
                    [mk_call call_A; mk_call call_B;
                     StdoutData 0 two_answers]) in
  outcome log 1 = Resolved resp_A /\ outcome log 2 = Resolved resp_B.
Proof.
  destruct (@fifo_correlation Node false [] [call_A; call_B] 0 two_answers)
    as (_ & _ & _ & H).
  split.
  - exact (H 0%nat 1%N resp_A eq_refl eq_refl).
  - exact (H 1%nat 2%N resp_B eq_refl eq_refl).
Defined.

(** The scenario of C2: two calls are pending when the worker closes. *)
Lemma close_rejects_two_calls :
  let st := fst (@run Node (new_bridge false)
                   [mk_call call_A; mk_call call_B; Close 0]) in
  let log := snd (@run Node (new_bridge false)
                    [mk_call call_A; mk_call call_B; Close 0]) in
  pending st = []
  /\ outcome log 1 = Rejected CLOSED_MESSAGE
  /\ outcome log 2 = Rejected CLOSED_MESSAGE.
Proof.
  destruct (@close_rejects_all_pending Node false
              (map mk_call [call_A; call_B]) 0) as (H0 & H).
  split; [exact H0|]. split.
  - exact (proj2 (H 1%N (or_introl eq_refl))).
  - exact (proj2 (H 2%N (or_intror (or_introl eq_refl)))).
Defined.

(** The scenario of C7: a line of log noise before an answer. *)
Lemma noise_line_dropped :
  let st := fst (@run Node (new_bridge false) (map mk_call [call_A])) in
  @feed_text Node st ([] ++ js "Loading index..." ++ NL
                         :: jsq "{'ok':true,'data':'A'}" ++ [NL])
  = @feed_text Node st ([] ++ jsq "{'ok':true,'data':'A'}" ++ [NL]).
Proof.
  apply (@bad_line_dropped Node).
  - now left.
  - vm_compute. intuition discriminate.
  - right. reflexivity.
Defined.

(** The scenario of C10: an answer nobody asked for. *)
Lemma unsolicited_answer_discarded :
  @feed_text Node (new_bridge false) (jsq "{'ok':true,'data':'A'}" ++ [NL])
  = (new_bridge false, []).
Proof.
  apply (@unsolicited_line_discarded Node (new_bridge false)
           (jsq "{'ok':true,'data':'A'}" ++ [NL]) eq_refl).
  - reflexivity.
  - right. exists (jsq "{'ok':true,'data':'A'}"). reflexivity.
Defined.

(** After [stop()] the field [child] is [null] and the next call spawns
    a worker; the ['close'] listener does not reset the field. *)
Lemma call_after_stop_respawns :
  let st := fst (@run Node (new_bridge false)
                   [mk_call call_A; Stop; Close 0; mk_call call_B]) in
  let log := snd (@run Node (new_bridge false)
                    [mk_call call_A; Stop; Close 0; mk_call call_B]) in
  child st = Some 1 /\ In (Spawn 1) log /\ alive st 1 = true.
Proof. cbv zeta. split; [reflexivity|]. split; [|reflexivity]. simpl. tauto. Qed.

(** The call made after an unsolicited answer gets its own answer. *)
Lemma call_after_unsolicited_answer :
  outcome (snd (@run Node (new_bridge false)
                  [Start;
                   StdoutData 0 (bytesq "{'ok':true,'data':'A'}" ++ [Byte.x0a]);
                   mk_call call_B;
                   StdoutData 0 (bytesq "{'ok':true,'data':'B'}" ++ [Byte.x0a])]))
          1
  = Resolved resp_B.
Proof. reflexivity. Qed.

(** C6, the code at its failing input.  The line is the JSON string of
    the one character U+00E9, five bytes in UTF-8.  Delivered as one
    chunk it resolves the call with that string; delivered as two
    chunks that cut the character in two, each half is decoded on its
    own into U+FFFD and the call is resolved with another string. *)
Theorem chunk_boundary_inside_character :
  let line := [Byte.x22; Byte.xc3; Byte.xa9; Byte.x22; Byte.x0a] in
  let left := [Byte.x22; Byte.xc3] in
  let right := [Byte.xa9; Byte.x22; Byte.x0a] in
  let whole := snd (@run Node (new_bridge false)
                      [mk_call call_A; StdoutData 0 line]) in
  let halves := snd (@run Node (new_bridge false)
                       [mk_call call_A; StdoutData 0 left; StdoutData 0 right]) in
  left ++ right = line
  /\ outcome whole 1 = Resolved (JString [233%N])
  /\ outcome halves 1 = Resolved (JString [65533%N; 65533%N])
  /\ outcome halves 1 <> outcome whole 1.
Proof.
  cbv zeta. split; [reflexivity|]. split; [reflexivity|].
  split; [reflexivity|]. vm_compute. discriminate.
Qed.

End BridgeScenarios.

(** * Further properties *)

(** ** The persistent bridge: framing, lifecycle, stderr *)

Section BridgeMore.
Import Bridge BridgeTraces.
Context {rt : Runtime}.

Lemma split_nl_segment_no_nl (s l : jsstring) :
  In l (split_nl s) -> ~ In NL l.
Proof.
  revert l. induction s as [|c r IH]; intros l; simpl.
  - intros [<-|[]]. auto.
  - destruct (N.eqb_spec c NL) as [->|Hc].
    + intros [<-|H]; [auto|now apply IH].
    + pose proof (split_nl_nonempty r) as Hne.
      destruct (split_nl r) as [|h t]; [contradiction|].
      intros [<-|H].
      * intros [E|E]; [now apply Hc|]. revert E. apply IH. now left.
      * apply IH. now right.
Qed.

Lemma fragment_no_nl (s : jsstring) : ~ In NL (fragment s).
Proof.
  apply (split_nl_segment_no_nl s). unfold fragment.
  destruct (exists_last (split_nl_nonempty s)) as (l' & x & ->).
  rewrite last_last. apply in_or_app. right. now left.
Qed.

Lemma step_buffer (st : State) (ev : Event) :
  ~ In NL (buffer st) -> ~ In NL (buffer (fst (step st ev))).
Proof.
  intros H. destruct ev as [a p| | |c d|c d|c]; cbn [step].
  - unfold call. destruct (child st); exact H.
  - exact H.
  - unfold stop. destruct (child st); exact H.
  - unfold on_stdout. rewrite feed_text_buffer. apply fragment_no_nl.
  - exact H.
  - exact H.
Qed.

Lemma last_nl_decomp (s : jsstring) :
  ~ In NL s \/ exists y z, s = y ++ NL :: z /\ ~ In NL z.
Proof.
  induction s as [|c r IH]; [left; auto|].
  destruct IH as [Hr|(y & z & -> & Hz)].
  - destruct (N.eqb_spec c NL) as [->|Hc].
    + right. exists [], r. auto.
    + left. intros [E|E]; [now apply Hc|now apply Hr].
  - right. exists (c :: y), z. auto.
Qed.

Lemma fragment_no_nl_id (s : jsstring) : ~ In NL s -> fragment s = s.
Proof. intros H. unfold fragment. now rewrite (split_nl_no_nl s H). Qed.

(** The fragment is what follows the last line feed. *)
Lemma fragment_suffix (s : jsstring) :
  exists pre, s = pre ++ fragment s /\ complete pre.
Proof.
  destruct (last_nl_decomp s) as [Hs|(y & z & -> & Hz)].
  - exists []. split; [|now left]. now rewrite (fragment_no_nl_id s Hs).
  - exists (y ++ [NL]). split; [|right; now exists y].
    unfold fragment. rewrite split_nl_app_nl, (split_nl_no_nl z Hz).
    now rewrite last_last, <- app_assoc.
Qed.

Lemma run_buffer (st : State) (evs : list Event) :
  ~ In NL (buffer st) ->
  buffer (fst (run st evs)) = fragment (buffer st ++ received evs).
Proof.
  revert st. induction evs as [|ev r IH]; intros st Hst.
  - simpl. rewrite app_nil_r. symmetry. now apply fragment_no_nl_id.
  - rewrite bridge_run_cons. cbn [fst].
    rewrite (IH _ (step_buffer st ev Hst)).
    destruct ev as [a p| | |c d|c d|c]; cbn [step received flat_map app];
      try reflexivity.
    + unfold call. now destruct (child st).
    + unfold stop. now destruct (child st).
    + unfold on_stdout. rewrite feed_text_buffer, app_assoc.
      symmetry. apply fragment_app.
Qed.

(** X3. The buffer of the bridge holds the text received after the last
    line feed, and nothing else: it is what follows the complete lines
    of all the output decoded so far, and it holds no line feed. *)
Theorem buffer_holds_no_line_feed (onStderr : bool) (evs : list Event) :
  let st := fst (run (new_bridge onStderr) evs) in
  ~ In NL (buffer st)
  /\ buffer st = fragment (received evs)
  /\ exists pre, received evs = pre ++ buffer st /\ complete pre.
Proof.
  intros st.
  assert (buffer st = fragment (received evs)) as Hb.
  { unfold st. rewrite run_buffer by (simpl; tauto). reflexivity. }
  split; [rewrite Hb; apply fragment_no_nl|]. split; [exact Hb|].
  rewrite Hb. apply fragment_suffix.
Qed.

(** X1. Over any trace no promise is settled twice, and a promise that
    has been settled is no longer in the map of pending requests. *)
Theorem promise_settled_once (onStderr : bool) (evs : list Event) :
  NoDup (settled (snd (run (new_bridge onStderr) evs))
         ++ handlers (pending (fst (run (new_bridge onStderr) evs)))).
Proof. apply wf_NoDup, wf_reachable. Qed.

(** X2. However the decoded output is cut into chunks, the stdout
    listener ends in the state and performs the effects of one chunk
    holding all the text. *)
Theorem feed_chunks_concat (st : State) (c : jsstring) (cs : list jsstring) :
  feed_chunks st (c :: cs) = feed_text st (List.concat (c :: cs)).
Proof.
  revert st c. induction cs as [|c' r IH]; intros st c.
  - simpl. rewrite app_nil_r. destruct (feed_text st c) as [s e].
    now rewrite app_nil_r.
  - change (feed_chunks st (c :: c' :: r))
      with (let (st1, e1) := feed_text st c in
            let (st2, e2) := feed_chunks st1 (c' :: r) in (st2, e1 ++ e2)).
    change (List.concat (c :: c' :: r)) with (c ++ List.concat (c' :: r)).
    rewrite feed_text_app.
    destruct (feed_text st c) as [st1 e1]. cbn [fst snd].
    rewrite IH. now destruct (feed_text st1 (List.concat (c' :: r))).
Qed.

(** X4. [stop()] settles nothing: the calls that are pending stay
    pending, a second [stop()] does nothing at all, and it is the
    ['close'] event that follows which rejects them. *)
Theorem stop_leaves_calls_pending
  (onStderr : bool) (evs : list Event) (c : ChildId) :
  let st := fst (run (new_bridge onStderr) evs) in
  let log := snd (run (new_bridge onStderr) evs) in
  let st1 := fst (step st Stop) in
  let e1 := snd (step st Stop) in
  let e2 := snd (step st1 (Close c)) in
  pending st1 = pending st
  /\ step st1 Stop = (st1, [])
  /\ Forall (fun p => outcome (log ++ e1) p = Pending) (handlers (pending st))
  /\ Forall (fun p => outcome ((log ++ e1) ++ e2) p = Rejected CLOSED_MESSAGE)
            (handlers (pending st)).
Proof.
  intros st log st1 e1 e2.
  assert (pending st1 = pending st) as Hp.
  { unfold st1. cbn [step]. unfold stop. now destruct (child st). }
  assert (settled e1 = []) as He1.
  { unfold e1. cbn [step]. unfold stop. now destruct (child st). }
  assert (forall p, In p (handlers (pending st)) ->
                    outcome (log ++ e1) p = Pending) as Hpend.
  { intros p Hin. rewrite outcome_app.
    rewrite (wf_pending_unsettled st log p (wf_reachable onStderr evs) Hin).
    apply outcome_unsettled. now rewrite He1. }
  split; [exact Hp|]. split; [|split].
  - unfold st1. cbn [step]. unfold stop.
    destruct (child st) eqn:E; simpl; rewrite ?E; reflexivity.
  - apply Forall_forall. exact Hpend.
  - apply Forall_forall. intros p Hin.
    rewrite outcome_app, (Hpend p Hin).
    unfold e2. cbn [step]. unfold on_close. cbn [snd]. rewrite Hp.
    now apply outcome_rejections.
Qed.

Lemma run_calls_writes (st : State) (k : ChildId)
      (calls : list (jsstring * option JSON)) :
  child st = Some k ->
  snd (run st (map mk_call calls)) = map (write_of k) calls.
Proof.
  revert st. induction calls as [|[a p] r IH]; intros st Hk; [reflexivity|].
  cbn [map]. rewrite bridge_run_cons.
  assert (child (fst (step st (mk_call (a, p)))) = Some k
          /\ snd (step st (mk_call (a, p))) = [write_of k (a, p)]) as [H1 H2].
  { unfold mk_call. cbn [step fst snd]. unfold call. rewrite Hk.
    cbn [fst snd child set_pending set_nextId]. rewrite Hk. auto. }
  cbn [snd]. now rewrite H2, (IH _ H1).
Qed.

(** X5. The worker is started by the first call that finds none and by
    no other: the calls made in a row write one request each, in their
    order and with [{}] for missing parameters, to one and the same
    worker, the current one or the one just spawned. *)
Theorem calls_write_to_one_worker
  (st : State) (calls : list (jsstring * option JSON)) :
  snd (run st (map mk_call calls))
  = match child st, calls with
    | Some k, _ => map (write_of k) calls
    | None, [] => []
    | None, _ :: _ => Spawn (spawned st) :: map (write_of (spawned st)) calls
    end.
Proof.
  destruct (child st) as [k|] eqn:Hk; [now apply run_calls_writes|].
  destruct calls as [|[a p] r]; [reflexivity|].
  cbn [map]. rewrite bridge_run_cons.
  assert (child (fst (step st (mk_call (a, p)))) = Some (spawned st)
          /\ snd (step st (mk_call (a, p)))
             = [Spawn (spawned st); write_of (spawned st) (a, p)]) as [H1 H2].
  { unfold mk_call. cbn [step fst snd]. unfold call. rewrite Hk. auto. }
  cbn [snd]. now rewrite H2, (run_calls_writes _ _ r H1).
Qed.

Lemma resolutions_no_callback (ps : list N) (vs : list JSON) :
  filter (fun e => negb (is_stderr_callback e)) (resolutions ps vs)
  = resolutions ps vs.
Proof.
  unfold resolutions. induction (combine ps vs) as [|pv r IH]; simpl;
    [reflexivity|]. now rewrite IH.
Qed.

Lemma step_no_callback (st : State) (ev : Event) :
  is_stderr ev = false ->
  filter (fun e => negb (is_stderr_callback e)) (snd (step st ev))
  = snd (step st ev).
Proof.
  intros H. destruct ev as [a p| | |c d|c d|c]; cbn [step]; try discriminate.
  - unfold call. destruct (child st) as [k|] eqn:Hk; simpl; rewrite ?Hk;
      reflexivity.
  - reflexivity.
  - unfold stop. now destruct (child st).
  - unfold on_stdout.
    rewrite feed_text_lines, process_lines_set_buffer, process_lines_fifo.
    cbn [fst snd]. apply resolutions_no_callback.
  - unfold on_close. cbn [fst snd].
    induction (pending st) as [|kh r IH]; simpl; [reflexivity|].
    now rewrite IH.
Qed.

(** X6. What the worker writes on stderr never interferes: with the
    stderr events taken out of a trace the bridge ends in the same state,
    and its effects are the same but for the calls of the stderr
    callback. *)
Theorem stderr_never_interferes (st : State) (evs : list Event) :
  let quiet := filter (fun ev => negb (is_stderr ev)) evs in
  fst (run st quiet) = fst (run st evs)
  /\ snd (run st quiet)
     = filter (fun e => negb (is_stderr_callback e)) (snd (run st evs)).
Proof.
  cbv zeta. revert st. induction evs as [|ev r IH]; intros st; [auto|].
  cbn [filter]. destruct (is_stderr ev) eqn:Ev; cbn [negb].
  - destruct ev; try discriminate.
    rewrite (bridge_run_cons st). cbn [step fst snd]. unfold on_stderr.
    cbn [fst snd]. destruct (IH st) as [H1 H2]. rewrite H1, H2.
    split; [reflexivity|].
    rewrite filter_app. now destruct (stderrCallback st).
  - rewrite !bridge_run_cons. cbn [fst snd].
    destruct (IH (fst (step st ev))) as [H1 H2]. rewrite H1, H2.
    split; [reflexivity|].
    now rewrite filter_app, (step_no_callback st ev Ev).
Qed.

End BridgeMore.

(** ** The one-shot invoker: settling once, the size of the message *)

Section OneShotMore.
Import OneShot.
Context {rt : Runtime}.

(** X8. The first ['close'] or ['error'] event decides: whatever is
    delivered afterwards, the promise keeps the value it got. *)
Theorem first_terminal_event_wins
  (act : jsstring) (prm : option JSON) (surplus : list JSON)
  (evs1 : list Event) (t : Event) (evs2 : list Event) :
  is_terminal t = true ->
  promise (run (pythonCall act prm surplus Spawned) (evs1 ++ t :: evs2))
  = promise (run (pythonCall act prm surplus Spawned) (evs1 ++ [t])).
Proof.
  intros Ht.
  change (t :: evs2) with ([t] ++ evs2). rewrite app_assoc, run_app.
  set (st := run (pythonCall act prm surplus Spawned) (evs1 ++ [t])).
  assert (exists v, promise st = Resolved v) as (v & Hv).
  { apply run_terminal_settles; [|reflexivity].
    rewrite existsb_app. simpl. rewrite Ht. apply orb_true_r. }
  rewrite Hv. now apply run_keeps_resolved.
Qed.

(** X9. The message built when the output cannot be parsed is bounded
    whatever the worker wrote: the fixed text, the exit code and at most
    500 code units of each stream. *)
Theorem exit_message_bounded (code : option Z) (err out : jsstring) :
  (List.length (exit_message code err out)
   <= 1052 + List.length (code_to_js code))%nat.
Proof.
  unfold exit_message. rewrite !length_app, !slice_last_length.
  change (List.length (js "Python process exited with code ")) with 32%nat.
  change (List.length (js ". stderr: ")) with 10%nat.
  change (List.length (js ". stdout: ")) with 10%nat.
  lia.
Qed.

(** X10. [JSON.parse] is always handed one line that is not empty:
    the text [lastLine] selects holds no line feed and at least one
    character, whatever the output. *)
Theorem lastLine_one_nonempty_line (out : jsstring) :
  lastLine out <> [] /\ ~ In NL (lastLine out).
Proof.
  unfold lastLine.
  destruct (last_elem (lines_of out)) as [l|] eqn:E.
  - destruct (truthy l) eqn:Hl.
    + split; [now destruct l|].
      assert (In l (lines_of out)) as Hin.
      { unfold last_elem in E. destruct (rev (lines_of out)) eqn:Er;
          [discriminate|]. injection E as ->.
        apply in_rev. rewrite Er. now left. }
      unfold lines_of in Hin. apply filter_In in Hin as [Hin _].
      exact (split_nl_segment_no_nl _ _ Hin).
    + split; [discriminate|]. vm_compute. intuition discriminate.
  - split; [discriminate|]. vm_compute. intuition discriminate.
Qed.

End OneShotMore.

(** ** The hook [usePython] *)

Section HookFacts.
Import Hook.



Context {rt : Runtime}.

Lemma pythonCall_close_promise
  (act : jsstring) (prm : option JSON) (evs : list OneShot.Event)
  (code : option Z) :
  OneShot.no_terminal evs = true ->
  OneShot.promise
    (OneShot.run (OneShot.pythonCall act prm [] OneShot.Spawned) (evs ++ [OneShot.Close code]))
  = match JSON_parse (OneShot.lastLine (OneShot.written_out evs)) with
    | Some result => Resolved result
    | None =>
        Resolved (failure (OneShot.exit_message code
                             (OneShot.written_err evs)
                             (OneShot.written_out evs)))
    end.
Proof.
  intros Hnt. rewrite run_app.
  cbn [OneShot.run fold_left OneShot.step]. unfold OneShot.on_close.
  destruct (pythonCall_accumulates act prm [] evs) as [-> ->].
  destruct (JSON_parse _); cbn [OneShot.promise OneShot.set_promise];
    now rewrite (run_no_terminal _ _ Hnt).
Qed.

(** X12. A worker that ends without having written a line leaves the
    interface with [Unknown error]: the exit code and what the worker
    wrote on stderr do not reach the user. *)
Theorem usePython_blank_output_unknown_error
  (null_message : jsstring) (st : State) (act : jsstring)
  (prm : option JSON) (evs : list OneShot.Event) (code : option Z) :
  OneShot.no_terminal evs = true ->
  forallb is_ws (OneShot.written_out evs) = true ->
  JSON_parse (js "{}") = Some (JObject []) ->
  call null_message st act prm OneShot.Spawned (evs ++ [OneShot.Close code])
  = Some ({| data := data st; loading := false;
             error := Some (JString (js "Unknown error")) |},
          Some JNull).
Proof.
  intros Hnt Hblank Hempty. unfold call.
  rewrite (pythonCall_close_promise _ _ _ _ Hnt).
  now rewrite (lastLine_blank _ Hblank), Hempty.
Qed.

(** X13. The two failures the invoker reports reach the interface as
    they are: a spawn failure shows [Failed to spawn Python: ...] and
    an output whose last line cannot be parsed shows the message with
    the exit code and the tails of the two streams. *)
Theorem usePython_shows_invoker_failures
  (null_message : jsstring) (st : State) (act : jsstring)
  (prm : option JSON) (evs : list OneShot.Event) :
  OneShot.no_terminal evs = true ->
  (forall message,
     call null_message st act prm OneShot.Spawned (evs ++ [OneShot.Error message])
     = Some ({| data := data st; loading := false;
                error := Some (JString (js "Failed to spawn Python: "
                                        ++ message)) |},
             Some JNull))
  /\ (forall code,
        JSON_parse (OneShot.lastLine (OneShot.written_out evs)) = None ->
        call null_message st act prm OneShot.Spawned (evs ++ [OneShot.Close code])
        = Some ({| data := data st; loading := false;
                   error := Some (JString
                                    (OneShot.exit_message code
                                       (OneShot.written_err evs)
                                       (OneShot.written_out evs))) |},
                Some JNull)).
Proof.
  intros Hnt. split.
  - intros message. unfold call. rewrite run_app.
    cbn [OneShot.run fold_left OneShot.step]. unfold OneShot.on_error.
    cbn [OneShot.promise OneShot.set_promise].
    now rewrite (run_no_terminal _ _ Hnt).
  - intros code Hparse. unfold call.
    now rewrite (pythonCall_close_promise _ _ _ _ Hnt), Hparse.
Qed.

End HookFacts.

(** ** The command line *)

Section CliFacts.

Lemma trimStart_idem (s : jsstring) : trimStart (trimStart s) = trimStart s.
Proof.
  induction s as [|c r IH]; [reflexivity|]. simpl.
  destruct (is_ws c) eqn:E; [exact IH|]. simpl. now rewrite E.
Qed.

Lemma trimStart_app_last (x : jsstring) (c : char16) :
  is_ws c = false -> trimStart (x ++ [c]) = trimStart x ++ [c].
Proof.
  intros Hc. destruct (forallb is_ws x) eqn:E.
  - rewrite trimStart_all_ws by assumption.
    replace (trimStart x) with (trimStart (x ++ [])) by now rewrite app_nil_r.
    rewrite trimStart_all_ws by assumption.
    simpl. now rewrite Hc.
  - now apply trimStart_some_char.
Qed.

Lemma trimEnd_cons (c : char16) (r : jsstring) :
  is_ws c = false -> trimEnd (c :: r) = c :: trimEnd r.
Proof.
  intros Hc. unfold trimEnd. simpl.
  rewrite (trimStart_app_last _ c Hc), rev_app_distr. reflexivity.
Qed.

Lemma trimEnd_idem (s : jsstring) : trimEnd (trimEnd s) = trimEnd s.
Proof. unfold trimEnd. now rewrite rev_involutive, trimStart_idem. Qed.

(** Trimming twice is trimming once. *)
Lemma trim_idem (s : jsstring) : trim (trim s) = trim s.
Proof.
  unfold trim. set (u := trimStart s).
  assert (trimStart (trimEnd u) = trimEnd u) as ->.
  { assert (trimStart u = u) as Hu by apply trimStart_idem.
    destruct u as [|c r]; [reflexivity|].
    destruct (is_ws c) eqn:Ec.
    - exfalso. simpl in Hu. rewrite Ec in Hu.
      pose proof (trimStart_length r) as Hl. rewrite Hu in Hl. simpl in Hl. lia.
    - rewrite (trimEnd_cons c r Ec). simpl. now rewrite Ec. }
  apply trimEnd_idem.
Qed.

Lemma In_trimStart (c : char16) (s : jsstring) :
  In c (trimStart s) -> In c s.
Proof.
  induction s as [|a r IH]; simpl; [auto|].
  destruct (is_ws a); simpl; auto.
Qed.

Lemma In_trim (c : char16) (s : jsstring) : In c (trim s) -> In c s.
Proof.
  unfold trim, trimEnd. intros H.
  apply In_trimStart. apply in_rev in H. apply In_trimStart in H.
  now apply in_rev.
Qed.

Lemma split_on_nonempty (sep : char16) (s : jsstring) :
  Cli.split_on sep s <> [].
Proof.
  destruct s as [|c r]; simpl; [discriminate|].
  destruct (c =? sep)%N; [discriminate|].
  destruct (Cli.split_on sep r); discriminate.
Qed.

Lemma split_on_segment (sep : char16) (s l : jsstring) :
  In l (Cli.split_on sep s) -> ~ In sep l.
Proof.
  revert l. induction s as [|c r IH]; intros l; simpl.
  - intros [<-|[]]. auto.
  - destruct (N.eqb_spec c sep) as [->|Hc].
    + intros [<-|H]; [auto|now apply IH].
    + pose proof (split_on_nonempty sep r) as Hne.
      destruct (Cli.split_on sep r) as [|h t]; [contradiction|].
      intros [<-|H].
      * intros [E|E]; [now apply Hc|]. revert E. apply IH. now left.
      * apply IH. now right.
Qed.

Lemma split_on_none (sep : char16) (s : jsstring) :
  ~ In sep s -> Cli.split_on sep s = [s].
Proof.
  induction s as [|c r IH]; simpl; intros H; [reflexivity|].
  destruct (N.eqb_spec c sep) as [->|_]; [exfalso; auto|].
  rewrite IH; auto.
Qed.

Lemma split_on_app (sep : char16) (a b : jsstring) :
  Cli.split_on sep (a ++ sep :: b) = Cli.split_on sep a ++ Cli.split_on sep b.
Proof.
  induction a as [|c r IH]; simpl; [now rewrite N.eqb_refl|].
  destruct (c =? sep)%N; [now rewrite IH|].
  rewrite IH.
  pose proof (split_on_nonempty sep r) as Hne.
  destruct (Cli.split_on sep r); [contradiction|reflexivity].
Qed.

(** X14. Every item of the parsed [--tissues] list is non-empty, has no
    white space around it and holds no comma. *)
Theorem tissuesList_items_clean
  (tissues : option jsstring) (items : list jsstring) :
  Cli.tissuesList tissues = Some items -> Forall Cli.clean_item items.
Proof.
  unfold Cli.tissuesList. destruct tissues as [t|]; [|discriminate].
  destruct (truthy t); [|discriminate]. intros H. injection H as <-.
  apply Forall_forall. intros x Hx.
  apply filter_In in Hx as [Hx Hne]. apply in_map_iff in Hx as (y & <- & Hy).
  split; [now destruct (trim y)|]. split; [apply trim_idem|].
  intros Hc. apply In_trim in Hc.
  exact (split_on_segment _ _ _ Hy Hc).
Qed.

Lemma split_comma_join (items : list jsstring) :
  items <> [] -> Forall Cli.clean_item items ->
  Cli.split_comma (Cli.join_comma items) = items.
Proof.
  intros Hne H. induction H as [|x r Hx Hr IH]; [contradiction|].
  destruct r as [|y r'].
  - simpl. apply split_on_none. apply Hx.
  - change (Cli.join_comma (x :: y :: r'))
      with (x ++ Cli.COMMA :: Cli.join_comma (y :: r')).
    unfold Cli.split_comma in *. rewrite split_on_app, IH by discriminate.
    rewrite split_on_none by apply Hx. reflexivity.
Qed.

(** X15. Round trip: a non-empty list of clean items, written with
    commas between them, is parsed back to itself; the empty text and a
    missing flag give [undefined]. *)
Theorem tissuesList_round_trip (items : list jsstring) :
  items <> [] -> Forall Cli.clean_item items ->
  Cli.tissuesList (Some (Cli.join_comma items)) = Some items
  /\ Cli.tissuesList (Some []) = None
  /\ Cli.tissuesList None = None.
Proof.
  intros Hne H. split; [|split; reflexivity].
  unfold Cli.tissuesList.
  assert (truthy (Cli.join_comma items) = true) as ->.
  { destruct H as [|x r (Hx & _) _]; [contradiction|].
    destruct x; [contradiction|]. now destruct r. }
  rewrite (split_comma_join items Hne H). f_equal.
  clear Hne. induction H as [|x r (Hx & Ht & _) _ IH]; [reflexivity|].
  simpl. rewrite Ht, IH. now destruct x.
Qed.

Context {rt : Runtime}.

(** X16. In a non-interactive mode one action is invoked, and as soon
    as the worker has closed or failed to start the process logs the
    response and exits with status 0, whatever the response says: a
    failure of the backend does not show in the exit status. *)
Theorem cli_exits_zero
  (f : Cli.Flags) (prm : option JSON) (evs : list OneShot.Event) :
  Cli.isNonInteractive f = true ->
  existsb OneShot.is_terminal evs = true ->
  exists act result,
    Cli.selected_action f = Some act
    /\ OneShot.promise (OneShot.run (OneShot.pythonCall act prm [] OneShot.Spawned) evs)
       = Resolved result
    /\ Cli.main f prm OneShot.Spawned evs = Some (Cli.Log result, 0%Z).
Proof.
  intros Hni Ht.
  assert (exists act, Cli.selected_action f = Some act) as (act & Hact).
  { unfold Cli.isNonInteractive in Hni. unfold Cli.selected_action.
    destruct (Cli.list f); [eauto|]. destruct (Cli.report f); [eauto|].
    destruct (Cli.test f); [eauto|]. destruct (Cli.duplicates f); [eauto|].
    discriminate. }
  destruct (run_terminal_settles (OneShot.pythonCall act prm [] OneShot.Spawned) evs Ht eq_refl)
    as (result & Hr).
  exists act, result. split; [exact Hact|]. split; [exact Hr|].
  unfold Cli.main. now rewrite Hact, Hr.
Qed.

End CliFacts.

(** ** Formatting of table cells *)

Section FormatFacts.
Import Format.

Lemma slice_to_nonneg (s : jsstring) (e : Z) :
  (0 <= e)%Z -> slice_to s e = firstn (Z.to_nat e) s.
Proof.
  intros H. unfold slice_to.
  destruct (Z.ltb_spec e 0); [lia|reflexivity].
Qed.

(** X17. For a width that is not negative the padded text has exactly
    that width.  A text that fits keeps all its characters, followed
    ([padRight]) or preceded ([padLeft]) by spaces; a longer text is cut
    on the right by both functions. *)
Theorem pad_exact_width (str : jsstring) (len : Z) :
  (0 <= len)%Z ->
  Z.of_nat (List.length (padRight str len)) = len
  /\ Z.of_nat (List.length (padLeft str len)) = len
  /\ ((Z.of_nat (List.length str) < len)%Z ->
      exists pad, padRight str len = str ++ pad
                  /\ padLeft str len = pad ++ str
                  /\ Forall (fun c => c = SPACE) pad)
  /\ ((len <= Z.of_nat (List.length str))%Z ->
      padRight str len = firstn (Z.to_nat len) str
      /\ padLeft str len = firstn (Z.to_nat len) str).
Proof.
  intros Hlen. unfold padRight, padLeft.
  destruct (Z.leb_spec len (Z.of_nat (List.length str))) as [Hle|Hlt].
  - rewrite (slice_to_nonneg str len Hlen), length_firstn.
    split; [lia|]. split; [lia|]. split; [lia|]. auto.
  - rewrite !length_app. unfold spaces. rewrite repeat_length.
    split; [lia|]. split; [lia|]. split; [|lia].
    intros _. eexists. split; [reflexivity|]. split; [reflexivity|].
    apply Forall_forall. intros c Hc. now apply repeat_spec in Hc.
Qed.

(** X18. For a width of at least 1 the truncated text is never wider
    than the width: a text that fits is returned as it is, a longer one
    is cut to [len - 1] characters and an ellipsis. *)
Theorem truncate_fits (str : jsstring) (len : Z) :
  (1 <= len)%Z ->
  (Z.of_nat (List.length (truncate str len)) <= len)%Z
  /\ ((Z.of_nat (List.length str) <= len)%Z -> truncate str len = str)
  /\ ((len < Z.of_nat (List.length str))%Z ->
      truncate str len = firstn (Z.to_nat (len - 1)) str ++ [ELLIPSIS]
      /\ Z.of_nat (List.length (truncate str len)) = len).
Proof.
  intros Hlen. unfold truncate.
  destruct (Z.leb_spec (Z.of_nat (List.length str)) len) as [Hle|Hlt].
  - split; [lia|]. split; [auto|lia].
  - rewrite (slice_to_nonneg str (len - 1)) by lia.
    rewrite length_app, length_firstn. simpl.
    split; [lia|]. split; [lia|]. intros _. split; [reflexivity|lia].
Qed.

(** X19. For a width of 0 or less a text that is not empty is not made
    to fit: the slice counts from the end and the ellipsis is added, so
    the result holds at least one character. *)
Theorem truncate_nonpositive_width (str : jsstring) (len : Z) :
  (len <= 0)%Z -> str <> [] ->
  truncate str len
  = firstn (Z.to_nat (Z.of_nat (List.length str) + len - 1)) str ++ [ELLIPSIS]
  /\ (len < Z.of_nat (List.length (truncate str len)))%Z.
Proof.
  intros Hlen Hne.
  assert (0 < List.length str)%nat as Hpos
    by (destruct str; [contradiction|simpl; lia]).
  unfold truncate.
  destruct (Z.leb_spec (Z.of_nat (List.length str)) len) as [Hle|Hlt]; [lia|].
  unfold slice_to. destruct (Z.ltb_spec (len - 1) 0) as [_|H]; [|lia].
  rewrite length_app. simpl. split; [|lia].
  do 2 f_equal. lia.
Qed.

End FormatFacts.

(** ** A worker that closes after its successor was started *)

Section BridgeRestart.
Import Bridge.
Context {rt : Runtime}.

Lemma step_child_below_spawned (st : State) (ev : Event) :
  child_below_spawned st -> child_below_spawned (fst (step st ev)).
Proof.
  unfold child_below_spawned. intros H.
  destruct ev as [a p| | |c d|c d|c]; cbn [step].
  - unfold call. destruct (child st) as [k|] eqn:Hk; simpl; rewrite ?Hk.
    + exact H.
    + lia.
  - simpl. lia.
  - unfold stop. destruct (child st) eqn:Hk; simpl; rewrite ?Hk; auto.
  - unfold on_stdout.
    rewrite feed_text_lines, process_lines_set_buffer, process_lines_fifo.
    exact H.
  - exact H.
  - exact H.
Qed.

Lemma run_child_below_spawned (onStderr : bool) (evs : list Event) :
  child_below_spawned (fst (run (new_bridge onStderr) evs)).
Proof.
  assert (forall st, child_below_spawned st ->
                     child_below_spawned (fst (run st evs))) as H.
  { induction evs as [|ev r IH]; intros st Hst; [exact Hst|].
    rewrite bridge_run_cons. cbn [fst]. apply IH.
    now apply step_child_below_spawned. }
  apply H. exact I.
Qed.

(** X7. After [stop()] the next call goes to a new worker, but the
    ['close'] listener of the worker that was stopped still acts on the
    bridge: when that worker closes, the call made to its successor is
    rejected with [Python process closed]. *)
Theorem late_close_rejects_successor_call
  (onStderr : bool) (evs : list Event) (a : jsstring) (p : option JSON)
  (k : ChildId) :
  let st := fst (run (new_bridge onStderr) evs) in
  let st' := fst (run (new_bridge onStderr) (evs ++ [Stop; Call a p])) in
  let log' := snd (run (new_bridge onStderr) (evs ++ [Stop; Call a p])) in
  child st = Some k ->
  child st' = Some (spawned st) /\ k <> spawned st
  /\ In (StdinWrite (spawned st) a (default_params p)) log'
  /\ In (nextId st) (handlers (pending st'))
  /\ outcome log' (nextId st) = Pending
  /\ outcome (log' ++ snd (step st' (Close k))) (nextId st)
     = Rejected CLOSED_MESSAGE.
Proof.
  intros st st' log' Hk.
  pose proof (wf_reachable onStderr (evs ++ [Stop; Call a p])) as Hwf'.
  fold st' log' in Hwf'.
  pose proof (run_child_below_spawned onStderr evs) as Hlt.
  fold st in Hlt. unfold child_below_spawned in Hlt. rewrite Hk in Hlt.
  assert (st' = fst (call (set_child st None) a p)
          /\ log' = snd (run (new_bridge onStderr) evs)
                    ++ [StdinEnd k; Kill k]
                    ++ snd (call (set_child st None) a p)) as [Hst' Hlog'].
  { unfold st', log'. rewrite bridge_run_app. fold st.
    rewrite !bridge_run_cons. cbn [fst snd step run].
    unfold stop. rewrite Hk. cbn [fst snd]. rewrite app_nil_r. auto. }
  assert (wf (set_child st None) (snd (run (new_bridge onStderr) evs))) as Hwf1.
  { exact (wf_reachable onStderr evs). }
  destruct (call_pending _ _ a p Hwf1) as (Hp & _ & _).
  rewrite <- Hst' in Hp. cbn [pending nextId set_child] in Hp.
  assert (In (nextId st) (handlers (pending st'))) as Hin.
  { rewrite Hp. unfold handlers. rewrite map_app. apply in_or_app.
    right. now left. }
  assert (outcome log' (nextId st) = Pending) as Hpend
    by now apply (wf_pending_unsettled st' log' _ Hwf').
  split; [now rewrite Hst'|]. split; [lia|]. split; [|split; [exact Hin|]].
  - rewrite Hlog'. apply in_or_app. right. apply in_or_app. right.
    unfold call. simpl. right. now left.
  - split; [exact Hpend|].
    rewrite outcome_app, Hpend. cbn [step]. unfold on_close. cbn [fst snd].
    now apply outcome_rejections.
Qed.

End BridgeRestart.

(** ** The one-shot result as a function of the text written *)

Section OneShotText.
Import OneShot.
Context {rt : Runtime}.

(** X20. The result of the one-shot invoker depends on the worker only
    through the decoded text of its two streams and its exit code: where
    the decoded chunks are cut, how stdout and stderr interleave and how
    much time passes make no difference. *)
Theorem pythonCall_result_depends_on_text
  (act : jsstring) (prm : option JSON)
  (evs evs' : list Event) (code : option Z) :
  no_terminal evs = true -> no_terminal evs' = true ->
  written_out evs = written_out evs' ->
  written_err evs = written_err evs' ->
  promise (run (pythonCall act prm [] Spawned) (evs ++ [Close code]))
  = promise (run (pythonCall act prm [] Spawned) (evs' ++ [Close code])).
Proof.
  intros Hnt Hnt' Hout Herr.
  rewrite (pythonCall_close_promise act prm evs code Hnt).
  rewrite (pythonCall_close_promise act prm evs' code Hnt').
  now rewrite Hout, Herr.
Qed.

End OneShotText.

(** ** A throw inside the executor *)

Section ExecutorThrow.
Context {rt : Runtime}.

Lemma run_keeps_rejected (st : OneShot.State) (evs : list OneShot.Event)
      (m : jsstring) :
  OneShot.promise st = Rejected m ->
  OneShot.promise (OneShot.run st evs) = Rejected m.
Proof.
  unfold OneShot.run. revert st.
  induction evs as [|ev r IH]; intros st H; simpl; [exact H|].
  apply IH. destruct ev; simpl; auto.
  - unfold OneShot.on_close. destruct (JSON_parse _); simpl; now rewrite H.
  - now rewrite H.
Qed.

(** X22. When [JSON.stringify] or [spawn] throws inside the executor,
    the promise of [pythonCall] is rejected with what was thrown and
    stays so.  The hook then takes its [catch] branch: [error] is the
    message (or [Failed to call Python backend] when it is empty),
    [data] is unchanged, [loading] is false and [null] is returned; the
    command line logs the message and exits with status 1. *)
Theorem executor_throw_rejects
  (act : jsstring) (prm : option JSON) (surplus : list JSON)
  (m : jsstring) (evs : list OneShot.Event)
  (null_message : jsstring) (hst : Hook.State) (f : Cli.Flags) :
  OneShot.promise
    (OneShot.run (OneShot.pythonCall act prm surplus (OneShot.Threw m)) evs)
  = Rejected m
  /\ Hook.call null_message hst act prm (OneShot.Threw m) evs
     = Some ({| Hook.data := Hook.data hst; Hook.loading := false;
                Hook.error := Hook.caught m |}, Some JNull)
  /\ (Cli.isNonInteractive f = true ->
      Cli.main f prm (OneShot.Threw m) evs = Some (Cli.LogError m, 1%Z)).
Proof.
  split; [now apply run_keeps_rejected|]. split.
  - unfold Hook.call.
    now rewrite (run_keeps_rejected
                   (OneShot.pythonCall act (Some (default_params prm)) []
                      (OneShot.Threw m)) evs m eq_refl).
  - intros Hni. unfold Cli.main.
    assert (exists a, Cli.selected_action f = Some a) as (a & ->).
    { unfold Cli.isNonInteractive in Hni. unfold Cli.selected_action.
      destruct (Cli.list f); [eauto|]. destruct (Cli.report f); [eauto|].
      destruct (Cli.test f); [eauto|]. destruct (Cli.duplicates f); [eauto|].
      discriminate. }
    now rewrite (run_keeps_rejected
                   (OneShot.pythonCall a prm [] (OneShot.Threw m)) evs m
                   eq_refl).
Qed.

End ExecutorThrow.

(** ** The further properties at concrete inputs *)

Section MoreScenarios.

(** A second ['close'] and a late ['error'] change nothing. *)
Lemma first_terminal_event_wins_witness :
  OneShot.promise
    (@OneShot.run Node (OneShot.pythonCall (js "stats") None [] OneShot.Spawned)
       ([OneShot.StdoutData (bytesq "{'ok':true}" ++ [Byte.x0a])]
        ++ OneShot.Close (Some 0%Z)
           :: [OneShot.Error (js "late"); OneShot.Close (Some 1%Z)]))
  = Resolved (JObject [(js "ok", JBool true)]).
Proof.
  exact (eq_trans
           (@first_terminal_event_wins Node (js "stats") None []
              [OneShot.StdoutData (bytesq "{'ok':true}" ++ [Byte.x0a])]
              (OneShot.Close (Some 0%Z))
              [OneShot.Error (js "late"); OneShot.Close (Some 1%Z)] eq_refl)
           eq_refl).
Defined.


(** A worker that dies with a traceback on stderr and nothing on
    stdout. *)
Lemma usePython_blank_output_witness :
  @Hook.call Node (js "Cannot read properties of null") Hook.initial
    (js "get_stats") None OneShot.Spawned
    ([OneShot.StderrData (bytes "Traceback (most recent call last)")]
     ++ [OneShot.Close (Some 1%Z)])
  = Some ({| Hook.data := Some JNull; Hook.loading := false;
             Hook.error := Some (JString (js "Unknown error")) |},
          Some JNull).
Proof.
  exact (@usePython_blank_output_unknown_error Node
           (js "Cannot read properties of null") Hook.initial
           (js "get_stats") None
           [OneShot.StderrData (bytes "Traceback (most recent call last)")]
           (Some 1%Z) eq_refl eq_refl eq_refl).
Defined.

Lemma usePython_shows_invoker_failures_witness :
  @Hook.call Node (js "Cannot read properties of null") Hook.initial
    (js "get_stats") None OneShot.Spawned ([] ++ [OneShot.Error (js "spawn python3 ENOENT")])
  = Some ({| Hook.data := Some JNull; Hook.loading := false;
             Hook.error :=
               Some (JString (js "Failed to spawn Python: "
                              ++ js "spawn python3 ENOENT")) |},
          Some JNull)
  /\ @Hook.call Node (js "Cannot read properties of null") Hook.initial
       (js "get_stats") None OneShot.Spawned
       ([OneShot.StdoutData (bytes "oops")] ++ [OneShot.Close (Some 2%Z)])
     = Some ({| Hook.data := Some JNull; Hook.loading := false;
                Hook.error :=
                  Some (JString
                          (@OneShot.exit_message (Some 2%Z)
                             (@OneShot.written_err Node
                                [OneShot.StdoutData (bytes "oops")])
                             (@OneShot.written_out Node
                                [OneShot.StdoutData (bytes "oops")]))) |},
             Some JNull).
Proof.
  split.
  - exact (proj1 (@usePython_shows_invoker_failures Node
                    (js "Cannot read properties of null") Hook.initial
                    (js "get_stats") None [] eq_refl)
             (js "spawn python3 ENOENT")).
  - exact (proj2 (@usePython_shows_invoker_failures Node
                    (js "Cannot read properties of null") Hook.initial
                    (js "get_stats") None
                    [OneShot.StdoutData (bytes "oops")] eq_refl)
             (Some 2%Z) eq_refl).
Defined.

Lemma two_tissues_clean : Forall Cli.clean_item two_tissues.
Proof.
  repeat constructor; try discriminate; vm_compute; intuition discriminate.
Defined.

Lemma tissuesList_items_clean_witness : Forall Cli.clean_item two_tissues.
Proof.
  exact (tissuesList_items_clean
           (Some (js " Leukemia, B-lymphocyte ,,")) two_tissues eq_refl).
Defined.

Lemma tissuesList_round_trip_witness :
  Cli.tissuesList (Some (js "Leukemia,B-lymphocyte")) = Some two_tissues.
Proof.
  assert (two_tissues <> []) as Hne by discriminate.
  exact (proj1 (tissuesList_round_trip two_tissues Hne two_tissues_clean)).
Defined.

(** [--list --paired] with a worker that exits with code 1 and no
    output: status 0. *)
Lemma cli_exits_zero_witness :
  exists act result,
    Cli.selected_action
      {| Cli.list := true; Cli.report := false; Cli.test := false;
         Cli.duplicates := false; Cli.paired := true;
         Cli.nonPaired := false |} = Some act
    /\ OneShot.promise
         (@OneShot.run Node (OneShot.pythonCall act None [] OneShot.Spawned)
            [OneShot.Close (Some 1%Z)])
       = Resolved result
    /\ @Cli.main Node
         {| Cli.list := true; Cli.report := false; Cli.test := false;
            Cli.duplicates := false; Cli.paired := true;
            Cli.nonPaired := false |} None OneShot.Spawned
         [OneShot.Close (Some 1%Z)]
       = Some (Cli.Log result, 0%Z).
Proof.
  exact (@cli_exits_zero Node
           {| Cli.list := true; Cli.report := false; Cli.test := false;
              Cli.duplicates := false; Cli.paired := true;
              Cli.nonPaired := false |} None [OneShot.Close (Some 1%Z)]
           eq_refl eq_refl).
Defined.

Lemma pad_exact_width_witness :
  Z.of_nat (List.length (Format.padRight (js "GM12878") 10)) = 10%Z
  /\ Format.padLeft (js "GM12878") 3 = js "GM1".
Proof.
  split.
  - exact (proj1 (pad_exact_width (js "GM12878") 10 ltac:(lia))).
  - assert (3 <= Z.of_nat (List.length (js "GM12878")))%Z as H
      by (vm_compute; discriminate).
    exact (proj2 (proj2 (proj2 (proj2 (pad_exact_width (js "GM12878") 3
                                          ltac:(lia)))) H)).
Defined.

Lemma truncate_fits_witness :
  Format.truncate (js "B-lymphocyte") 5
  = firstn 4 (js "B-lymphocyte") ++ [Format.ELLIPSIS].
Proof.
  assert (5 < Z.of_nat (List.length (js "B-lymphocyte")))%Z as H
    by (vm_compute; reflexivity).
  exact (proj1 (proj2 (proj2 (truncate_fits (js "B-lymphocyte") 5
                                ltac:(lia))) H)).
Defined.

Lemma truncate_nonpositive_width_witness :
  Format.truncate (js "abc") 0 = js "ab" ++ [Format.ELLIPSIS].
Proof.
  assert (js "abc" <> []) as H by discriminate.
  exact (proj1 (truncate_nonpositive_width (js "abc") 0 ltac:(lia) H)).
Defined.

Lemma late_close_rejects_successor_call_witness :
  let log' := snd (@Bridge.run Node (Bridge.new_bridge false)
                     ([Bridge.mk_call call_A]
                      ++ [Bridge.Stop; Bridge.Call (js "get_stats") None])) in
  let st' := fst (@Bridge.run Node (Bridge.new_bridge false)
                    ([Bridge.mk_call call_A]
                     ++ [Bridge.Stop; Bridge.Call (js "get_stats") None])) in
  Bridge.child st' = Some 1
  /\ Bridge.outcome (log' ++ snd (@Bridge.step Node st' (Bridge.Close 0))) 2
     = Rejected Bridge.CLOSED_MESSAGE.
Proof.
  destruct (@late_close_rejects_successor_call Node false
              [Bridge.mk_call call_A] (js "get_stats") None 0 eq_refl)
    as (H1 & _ & _ & _ & _ & H2).
  split; [exact H1|exact H2].
Defined.

Lemma pythonCall_result_depends_on_text_witness :
  OneShot.promise
    (@OneShot.run Node (OneShot.pythonCall (js "stats") None [] OneShot.Spawned)
       ([OneShot.StdoutData noise_then_answer;
         OneShot.StderrData (bytes "warning")]
        ++ [OneShot.Close (Some 0%Z)]))
  = OneShot.promise
      (@OneShot.run Node (OneShot.pythonCall (js "stats") None [] OneShot.Spawned)
         ([OneShot.StdoutData (bytes "noi"); OneShot.Elapsed 5;
           OneShot.StderrData (bytes "warn");
           OneShot.StdoutData
             (bytes "se" ++ [Byte.x0a]
              ++ bytesq "{'ok':true,'data':{'x':1}}" ++ [Byte.x0a]);
           OneShot.StderrData (bytes "ing")]
          ++ [OneShot.Close (Some 0%Z)])).
Proof.
  exact (@pythonCall_result_depends_on_text Node (js "stats") None
           [OneShot.StdoutData noise_then_answer;
            OneShot.StderrData (bytes "warning")]
           [OneShot.StdoutData (bytes "noi"); OneShot.Elapsed 5;
            OneShot.StderrData (bytes "warn");
            OneShot.StdoutData
              (bytes "se" ++ [Byte.x0a]
               ++ bytesq "{'ok':true,'data':{'x':1}}" ++ [Byte.x0a]);
            OneShot.StderrData (bytes "ing")]
           (Some 0%Z) eq_refl eq_refl eq_refl eq_refl).
Defined.

(** [--test] with an argument list the system refuses. *)
Lemma executor_throw_rejects_witness :
  @Cli.main Node
    {| Cli.list := false; Cli.report := false; Cli.test := true;
       Cli.duplicates := false; Cli.paired := false;
       Cli.nonPaired := false |} None (OneShot.Threw (js "spawn E2BIG")) []
  = Some (Cli.LogError (js "spawn E2BIG"), 1%Z).
Proof.
  exact (proj2 (proj2 (@executor_throw_rejects Node (js "test_download") None
                         [] (js "spawn E2BIG") []
                         (js "Cannot read properties of null") Hook.initial
                         {| Cli.list := false; Cli.report := false;
                            Cli.test := true; Cli.duplicates := false;
                            Cli.paired := false; Cli.nonPaired := false |}))
           eq_refl).
Defined.

End MoreScenarios.
